(** * scheduler/runner.py: batch splitting, backoff submission, deferral
      and result ingestion, as a shallow embedding.

    The Python module is sequential and effectful.  Pure helpers
    ([split_batch_by_token_limit], [is_valid_post]) become functions on lists;
    everything that touches the clock, the file system, the batch service,
    the cost ledger or the data base runs in a state-and-exception monad over
    an explicit [world].  Collaborators that live in other modules of the
    repository (gpt, db, reddit, scheduler.cost_tracker, utils) and in the
    Python library (json, uuid) are the fields of the record [collab].
    Informational logging is left out; the error logs of result ingestion
    stay, as events. *)

From stdpp Require Import base option list strings gmap.
From Stdlib Require Import ZArith Lia.

#[local] Set Warnings "-register-all".

Local Open Scope Z_scope.
Local Open Scope string_scope.
Local Open Scope list_scope.

(** ** Work items

    A payload entry is a dict; the splitter only reads
    [item.get("meta", {}).get("estimated_tokens", 300)], the other keys are
    carried along untouched.  Python integers are unbounded: [Z]. *)

Record meta_t := Meta { estimated_tokens : option Z }.

Record item := Item {
  custom_id : string;
  meta : option meta_t;
  other_keys : string
}.

#[global] Instance meta_eq_dec : EqDecision meta_t.
Proof. solve_decision. Defined.

#[global] Instance item_eq_dec : EqDecision item.
Proof. solve_decision. Defined.

(** [item.get("meta", {}).get("estimated_tokens", 300)] *)
Definition item_tokens (it : item) : Z :=
  match meta it with
  | None => 300
  | Some m => default 300 (estimated_tokens m)
  end.

Definition sum_tokens (b : list item) : Z :=
  foldr (fun it acc => item_tokens it + acc) 0 b.

(** ** split_batch_by_token_limit (runner.py, lines 78-96) *)

Module Splitter.

(** The three loop variables. *)
Record state := State {
  batches : list (list item);
  current_batch : list item;
  current_tokens : Z
}.

Definition init : state := State [] [] 0.

(** Lines 85-88: close the running batch when the next item would not fit. *)
Definition flush (token_limit tokens : Z) (st : state) : state :=
  if current_tokens st + tokens >? token_limit
  then State (batches st ++ [current_batch st]) [] 0
  else st.

(** One iteration of the [for item in payload] loop. *)
Definition step (token_limit : Z) (st : state) (it : item) : state :=
  let tokens := item_tokens it in
  let st' := flush token_limit tokens st in
  State (batches st') (current_batch st' ++ [it]) (current_tokens st' + tokens).

Definition loop (token_limit : Z) (payload : list item) (st : state) : state :=
  fold_left (step token_limit) payload st.

(** Lines 93-96: [if current_batch: batches.append(current_batch)]. *)
Definition finish (st : state) : list (list item) :=
  match current_batch st with
  | [] => batches st
  | _ :: _ => batches st ++ [current_batch st]
  end.

End Splitter.

(** The [model] argument is accepted and never read. *)
Definition split_batch_by_token_limit
    (payload : list item) (model : string) (token_limit : Z) : list (list item) :=
  Splitter.finish (Splitter.loop token_limit payload Splitter.init).

Definition default_token_limit : Z := 200000.

(** ** JSON values as [json.loads] returns them

    Numbers are kept as integers; floating-point values are outside the
    model, and the arithmetic of the weighted score comes in through the
    collaborator record below.  A decoded object has one entry per key. *)

Inductive json :=
| JNull
| JBool (b : bool)
| JNum (n : Z)
| JStr (s : string)
| JArr (elems : list json)
| JObj (fields : list (string * json)).

(** [v[key]] for a string key: defined on dicts that have the key
    (KeyError or TypeError otherwise). *)
Definition get_key (key : string) (v : json) : option json :=
  match v with
  | JObj fields => snd <$> List.find (fun kv => String.eqb (fst kv) key) fields
  | _ => None
  end.

(** [v[0]]: first element of a list, first character of a string. *)
Definition get_first (v : json) : option json :=
  match v with
  | JArr (x :: _) => Some x
  | JStr (String c _) => Some (JStr (String c ""))
  | _ => None
  end.

(** Python sets hold hashable values only. *)
Definition hashable (v : json) : bool :=
  match v with
  | JArr _ | JObj _ => false
  | _ => true
  end.

(** [result["response"]["body"]["choices"][0]["message"]["content"]] *)
Definition message_content (result : json) : option json :=
  response ← get_key "response" result;
  body ← get_key "body" response;
  choices ← get_key "choices" body;
  choice ← get_first choices;
  message ← get_key "message" choice;
  get_key "content" message.

(** ** Scraped posts: dicts of which the runner reads title and body *)

Record post := Post {
  post_name : string;
  title : option string;
  post_body : option string
}.

(** ** Effects *)

(** What one pass through lines 31-34 produces: an exception somewhere in
    [generate_file_fn], [submit_batch_job], [poll_batch_status] or
    [batch_info["status"]], or a job identifier with its polled status. *)
Inductive outcome :=
| Raises
| Polled (batch_id : string) (status : string).

Inductive db_op := UpdateFilterScores | UpdateInsight | MarkInsightProcessed.

Inductive log_site := FilterLine | InsightContent | InsightRead | OldFile.

Inductive exn := ExnService | ExnIO | ExnDecode | ExnDb.

Section Effects.

(** Estimated cost: a float in the source, opaque here. *)
Context {money : Type}.

(** Observable calls, in program order. *)
Inductive event :=
| EvCanProcess (cost : money)
| EvAddCost (batch : list item) (model : string)
| EvSubmit (label : string) (attempt : nat) (batch : list item) (model : string)
| EvSleep (delay : Z)
| EvPersist (path : string) (items : list item)
| EvDownload (batch_id : string) (path : string)
| EvLogError (site : log_site)
| EvDb (op : db_op) (post_id : json) (arg : option json).

Record world := World {
  trace : list event;
  (** data/deferred: path to the items written, one JSON line each *)
  deferred : gmap string (list item);
  (** data/batch_responses: path to lines, in directory order *)
  responses : list (string * list string);
  (** the calls to add_estimated_batch_cost so far *)
  ledger : list (list item * string);
  (** submission attempts made so far *)
  submissions : nat;
  (** uuid4() values drawn so far *)
  uuids : nat;
  (** the set object built by get_high_potential_ids_from_filter_results,
      as the sequence of its [add] calls *)
  high_ids : list json
}.

Definition set_trace (t : list event) (w : world) : world :=
  World t (deferred w) (responses w) (ledger w) (submissions w) (uuids w) (high_ids w).
Definition set_deferred (d : gmap string (list item)) (w : world) : world :=
  World (trace w) d (responses w) (ledger w) (submissions w) (uuids w) (high_ids w).
Definition set_responses (r : list (string * list string)) (w : world) : world :=
  World (trace w) (deferred w) r (ledger w) (submissions w) (uuids w) (high_ids w).
Definition set_ledger (l : list (list item * string)) (w : world) : world :=
  World (trace w) (deferred w) (responses w) l (submissions w) (uuids w) (high_ids w).
Definition set_submissions (n : nat) (w : world) : world :=
  World (trace w) (deferred w) (responses w) (ledger w) n (uuids w) (high_ids w).
Definition set_uuids (n : nat) (w : world) : world :=
  World (trace w) (deferred w) (responses w) (ledger w) (submissions w) n (high_ids w).
Definition set_high_ids (h : list json) (w : world) : world :=
  World (trace w) (deferred w) (responses w) (ledger w) (submissions w) (uuids w) h.

(** State and exception monad; the world survives an exception, as it
    does in Python when [except] resumes. *)
Definition M (A : Type) : Type := world -> (exn + A) * world.

#[global] Instance M_ret : MRet M := fun A a w => (inr a, w).

#[global] Instance M_bind : MBind M := fun A B f c w =>
  match c w with
  | (inr a, w') => f a w'
  | (inl e, w') => (inl e, w')
  end.

Definition raise {A} (e : exn) : M A := fun w => (inl e, w).

(** [try: c except Exception: h] *)
Definition try_except {A} (c : M A) (h : exn -> M A) : M A := fun w =>
  match c w with
  | (inr a, w') => (inr a, w')
  | (inl e, w') => h e w'
  end.

(** A Python lookup or decoding step that raises when it has no value. *)
Definition lift {A} (o : option A) : M A :=
  match o with
  | Some a => mret a
  | None => raise ExnDecode
  end.

Definition gets {A} (f : world -> A) : M A := fun w => (inr (f w), w).

Definition modify (f : world -> world) : M unit := fun w => (inr tt, f w).

Definition emit (ev : event) : M unit :=
  modify (fun w => set_trace (trace w ++ [ev]) w).

(** Iterate a monadic body over a list: a [for] loop without [break]. *)
Fixpoint for_each {A} (l : list A) (body : A -> M unit) : M unit :=
  match l with
  | [] => mret tt
  | x :: rest => body x ;; for_each rest body
  end.

(** The collaborators of runner.py. *)
Record collab := Collab {
  (** outcome of the k-th submission attempt of the run *)
  service : nat -> outcome;
  (** [os.makedirs] or [open(path, "w")] raises for this path *)
  write_raises : string -> bool;
  (** download_batch_results: the lines written, or an exception *)
  results_of : string -> option (list string);
  uuid4_hex : nat -> string;
  json_loads : string -> option json;
  py_mul : json -> json -> option json;
  py_add : json -> json -> option json;
  (** [weighted_score >= score_threshold] *)
  py_ge_threshold : json -> option bool;
  (** config["scoring"] *)
  weights : json;
  db_raises : db_op -> json -> bool;
  sanitize_text : string -> string;
  scrape_all_configured_subreddits : list post;
  prepare_filter_batch : list post -> list item;
  estimate_filter_cost : list post -> money;
  can_process_batch : list (list item * string) -> money -> bool;
  get_posts_by_ids : list json -> list post;
  prepare_insight_batch : list post -> list item;
  estimate_insight_cost : list item -> money;
  model_filter : string;
  model_deep : string;
  (** the file's mtime is before the retention cutoff *)
  is_old : string -> bool;
  remove_raises : string -> bool
}.

Variable C : collab.

(** *** submit_with_backoff (lines 25-62) and save_failed_batch (64-70) *)

Definition initial_delay : Z := 10.
Definition max_delay : Z := 3600.
Definition max_retries : nat := 20.

(** [delay *= 2; if delay > 3600: delay = 3600] *)
Definition next_delay (delay : Z) : Z :=
  let d := delay * 2 in if d >? max_delay then max_delay else d.

Definition sleep (delay : Z) : M unit := emit (EvSleep delay).

(** Lines 31-34: generate the file, submit it, poll, read the status. *)
Definition submit_and_poll (label : string) (attempt : nat)
    (batch_items : list item) (model : string) : M (string * string) :=
  k ← gets submissions;
  modify (fun w => set_submissions (S k) w) ;;
  emit (EvSubmit label attempt batch_items model) ;;
  match service C k with
  | Raises => raise ExnService
  | Polled batch_id status => mret (batch_id, status)
  end.

(** How one iteration of the retry loop ends. *)
Inductive control :=
| Return (batch_id : string)
| Continue (delay : Z).

(** Lines 29-57: the body of the [for attempt] loop. *)
Definition attempt_once (label : string) (batch_items : list item)
    (model : string) (attempt : nat) (delay : Z) : M control :=
  try_except
    (r ← submit_and_poll label attempt batch_items model;
     let status := r.2 in
     if String.eqb status "completed" then mret (Return r.1)
     else if String.eqb status "cancelled" then
       sleep delay ;; mret (Continue (next_delay delay))
     else if String.eqb status "failed" then
       sleep delay ;; mret (Continue (next_delay delay))
     else mret (Continue delay))
    (fun _ => sleep delay ;; mret (Continue (next_delay delay))).

(** The loop over [range(1, max_retries + 1)]; [None] when it runs out. *)
Fixpoint retry_loop (label : string) (batch_items : list item) (model : string)
    (attempts : list nat) (delay : Z) : M (option string) :=
  match attempts with
  | [] => mret None
  | attempt :: rest =>
      r ← attempt_once label batch_items model attempt delay;
      match r with
      | Return batch_id => mret (Some batch_id)
      | Continue delay' => retry_loop label batch_items model rest delay'
      end
  end.

Definition deferred_path (folder label : string) : string :=
  folder +:+ "/" +:+ "failed_" +:+ label +:+ ".jsonl".

Definition save_failed_batch (batch_items : list item) (label folder : string) : M unit :=
  let out_path := deferred_path folder label in
  if write_raises C out_path then raise ExnIO
  else
    modify (fun w => set_deferred (<[out_path := batch_items]> (deferred w)) w) ;;
    emit (EvPersist out_path batch_items).

Definition submit_with_backoff (batch_items : list item) (model label : string)
    : M (option string) :=
  r ← retry_loop label batch_items model (seq 1 max_retries) initial_delay;
  match r with
  | Some batch_id => mret (Some batch_id)
  | None => save_failed_batch batch_items label "data/deferred" ;; mret None
  end.

(** *** Files under data/batch_responses *)

Definition ends_with (suffix s : string) : bool :=
  let n := String.length s in
  let k := String.length suffix in
  (k <=? n)%nat && String.eqb (String.substring (n - k) k s) suffix.

(** [glob.glob(prefix + "*" + suffix)] on one path. *)
Definition glob_match (pre suffix path : string) : bool :=
  (String.length pre + String.length suffix <=? String.length path)%nat
  && String.prefix pre path && ends_with suffix path.

Definition read_file (path : string) (fs : list (string * list string))
    : option (list string) :=
  snd <$> List.find (fun f => String.eqb (fst f) path) fs.

(** [open(path, "w")] followed by the writes: replace or create. *)
Definition write_file (path : string) (lines : list string)
    (fs : list (string * list string)) : list (string * list string) :=
  match read_file path fs with
  | Some _ => (fun f => if String.eqb (fst f) path then (path, lines) else f) <$> fs
  | None => fs ++ [(path, lines)]
  end.

Definition remove_file (path : string) (fs : list (string * list string))
    : list (string * list string) :=
  List.filter (fun f => negb (String.eqb (fst f) path)) fs.

Definition uuid4 : M string :=
  k ← gets uuids;
  modify (set_uuids (S k)) ;;
  mret (uuid4_hex C k).

Definition download_batch_results (batch_id path : string) : M unit :=
  emit (EvDownload batch_id path) ;;
  match results_of C batch_id with
  | None => raise ExnService
  | Some lines => modify (fun w => set_responses (write_file path lines (responses w)) w)
  end.

(** clean_old_batch_files (lines 98-113); the count of deleted files is
    only logged. *)
Definition clean_old_batch_files : M unit :=
  listing ← gets responses;
  for_each (fst <$> listing) (fun path =>
    if ends_with ".jsonl" path && is_old C path then
      try_except
        (if remove_raises C path then raise ExnIO
         else modify (fun w => set_responses (remove_file path (responses w)) w))
        (fun _ => emit (EvLogError OldFile))
    else mret tt).

(** *** Cost ledger and data base calls *)

(** [can_process_batch(cost)] as the driver calls it. *)
Definition check_budget (cost : money) : M bool :=
  l ← gets ledger;
  emit (EvCanProcess cost) ;;
  mret (can_process_batch C l cost).

(** Modelled from the spec: gpt.batch_api.add_estimated_batch_cost is not
    under src/.  It commits the estimated cost of a sub-batch to the cost
    ledger; here the call is logged and the ledger is the list of the calls
    made so far, which [can_process_batch] reads. *)
Definition add_estimated_batch_cost (batch : list item) (model : string) : M unit :=
  emit (EvAddCost batch model) ;;
  modify (fun w => set_ledger (ledger w ++ [(batch, model)]) w).

Definition db_call (op : db_op) (post_id : json) (arg : option json) : M unit :=
  emit (EvDb op post_id arg) ;;
  if db_raises C op post_id then raise ExnDb else mret tt.

(** *** is_valid_post (lines 72-76) *)

Definition is_valid_post (p : post) : bool :=
  let title := sanitize_text C (default "" (title p)) in
  let body := sanitize_text C (default "" (post_body p)) in
  negb (String.eqb title "") && negb (String.eqb body "").

(** *** get_high_potential_ids_from_filter_results (lines 115-136) *)

(** [json.loads(content)]: the argument has to be a string. *)
Definition loads_value (content : json) : option json :=
  match content with
  | JStr s => json_loads C s
  | _ => None
  end.

(** Lines 126-130. *)
Definition weighted_score (scores : json) : option json :=
  r ← get_key "relevance_score" scores;
  rw ← get_key "relevance_weight" (weights C);
  a ← py_mul C r rw;
  e ← get_key "emotional_intensity" scores;
  ew ← get_key "emotion_weight" (weights C);
  b ← py_mul C e ew;
  ab ← py_add C a b;
  p ← get_key "pain_point_clarity" scores;
  pw ← get_key "pain_point_weight" (weights C);
  c ← py_mul C p pw;
  py_add C ab c.

(** [high_ids.add(post_id)] *)
Definition high_ids_add (post_id : json) : M unit :=
  if hashable post_id
  then modify (fun w => set_high_ids (high_ids w ++ [post_id]) w)
  else raise ExnDecode.

(** Lines 121-135: one line of a filter result file. *)
Definition filter_result_line (line : string) : M unit :=
  try_except
    (result ← lift (json_loads C line);
     post_id ← lift (get_key "custom_id" result);
     content ← lift (message_content result);
     scores ← lift (loads_value content);
     score ← lift (weighted_score scores);
     high ← lift (py_ge_threshold C score);
     if (high : bool) then
       high_ids_add post_id ;;
       db_call UpdateFilterScores post_id (Some scores)
     else mret tt)
    (fun _ => emit (EvLogError FilterLine)).

Definition filter_result_pattern : string * string :=
  ("data/batch_responses/filter_result_", ".jsonl").

Definition get_high_potential_ids_from_filter_results : M (list json) :=
  modify (set_high_ids []) ;;
  fs ← gets responses;
  for_each
    (List.filter (fun f => glob_match filter_result_pattern.1 filter_result_pattern.2 (fst f)) fs)
    (fun f => for_each (snd f) filter_result_line) ;;
  gets high_ids.

(** *** run_daily_pipeline (lines 138-259) *)

(** [if not batch_id]: [None] and the empty string are both falsy. *)
Definition no_batch_id (r : option string) : bool :=
  match r with
  | None => true
  | Some batch_id => String.eqb batch_id ""
  end.

(** Lines 177-192: one sub-batch of the filter stage. *)
Definition filter_sub_batch (batch : list item) : M unit :=
  add_estimated_batch_cost batch (model_filter C) ;;
  batch_id ← submit_with_backoff batch (model_filter C) "filter";
  if no_batch_id batch_id then mret tt
  else
    hex ← uuid4;
    download_batch_results (default "" batch_id)
      ("data/batch_responses/filter_result_" +:+ hex +:+ ".jsonl").

(** Lines 219-235: one sub-batch of the insight stage; the result is
    [all_insight_paths] after the iteration. *)
Definition insight_sub_batch (all_insight_paths : list string) (batch : list item)
    : M (list string) :=
  add_estimated_batch_cost batch (model_deep C) ;;
  batch_id ← submit_with_backoff batch (model_deep C) "insight";
  if no_batch_id batch_id then mret all_insight_paths
  else
    hex ← uuid4;
    let insight_path := "data/batch_responses/insight_result_" +:+ hex +:+ ".jsonl" in
    download_batch_results (default "" batch_id) insight_path ;;
    mret (all_insight_paths ++ [insight_path]).

Fixpoint insight_sub_batches (all_insight_paths : list string)
    (insight_batches : list (list item)) : M (list string) :=
  match insight_batches with
  | [] => mret all_insight_paths
  | batch :: rest =>
      paths ← insight_sub_batch all_insight_paths batch;
      insight_sub_batches paths rest
  end.

(** Lines 242-250: one line of an insight result file.  The envelope is
    decoded outside the inner [try]. *)
Definition insight_result_line (line : string) : M unit :=
  result ← lift (json_loads C line);
  post_id ← lift (get_key "custom_id" result);
  content ← lift (message_content result);
  try_except
    (insight ← lift (loads_value content);
     db_call UpdateInsight post_id (Some insight) ;;
     db_call MarkInsightProcessed post_id None)
    (fun _ => emit (EvLogError InsightContent)).

Definition insight_result_file (insight_path : string) : M unit :=
  fs ← gets responses;
  match read_file insight_path fs with
  | None => raise ExnIO
  | Some lines => for_each lines insight_result_line
  end.

(** Lines 238-252. *)
Definition update_posts_with_insights (all_insight_paths : list string) : M unit :=
  try_except
    (for_each all_insight_paths insight_result_file)
    (fun _ => emit (EvLogError InsightRead)).

(** Lines 205-252, entered once [deep_posts] is known to be non-empty. *)
Definition insight_stage (deep_posts : list post) : M unit :=
  let insight_batch := prepare_insight_batch C deep_posts in
  let insight_cost := estimate_insight_cost C insight_batch in
  ok ← check_budget insight_cost;
  if negb ok then mret tt
  else
    let insight_batches :=
      split_batch_by_token_limit insight_batch (model_deep C) default_token_limit in
    all_insight_paths ← insight_sub_batches [] insight_batches;
    update_posts_with_insights all_insight_paths.

(** Lines 165-203, entered once valid posts are known to exist. *)
Definition filter_stage (scraped_posts : list post) : M unit :=
  let filter_batch := prepare_filter_batch C scraped_posts in
  let filter_cost := estimate_filter_cost C scraped_posts in
  ok ← check_budget filter_cost;
  if negb ok then mret tt
  else
    let filter_batches :=
      split_batch_by_token_limit filter_batch (model_filter C) default_token_limit in
    for_each filter_batches filter_sub_batch ;;
    high_potential_ids ← get_high_potential_ids_from_filter_results;
    match high_potential_ids with
    | [] => mret tt
    | _ :: _ =>
        match get_posts_by_ids C high_potential_ids with
        | [] => mret tt
        | (_ :: _) as deep_posts => insight_stage deep_posts
        end
    end.

(** The directory, schema and ledger set-up calls, the data base
    clean-up and the closing report leave no mark in this model. *)
Definition run_daily_pipeline : M unit :=
  clean_old_batch_files ;;
  match scrape_all_configured_subreddits C with
  | [] => mret tt
  | (_ :: _) as scraped_posts =>
      match List.filter is_valid_post scraped_posts with
      | [] => mret tt
      | (_ :: _) as valid_posts => filter_stage valid_posts
      end
  end.

Definition empty_world : world := World [] ∅ [] [] 0 0 [].

End Effects.

Arguments event money : clear implicits.
Arguments world money : clear implicits.
Arguments M money A : clear implicits.
Arguments collab money : clear implicits.


(** ** Statements about the splitter *)

Definition oversized (token_limit : Z) (it : item) : Prop :=
  token_limit < item_tokens it.

(** A sub-batch respects the limit, or is a single oversized item. *)
Definition within_limit (token_limit : Z) (b : list item) : Prop :=
  sum_tokens b <= token_limit \/ exists it, b = [it] /\ oversized token_limit it.

(** An oversized item shares its sub-batch with nothing else. *)
Definition oversized_alone (token_limit : Z) (b : list item) : Prop :=
  forall it, it ∈ b -> oversized token_limit it -> b = [it].

(** Token bound, oversized items alone, oversized items kept. *)
Definition token_bound (payload : list item) (model : string) (token_limit : Z) : Prop :=
  let bs := split_batch_by_token_limit payload model token_limit in
  Forall (within_limit token_limit) bs
  /\ Forall (oversized_alone token_limit) bs
  /\ forall it, it ∈ payload -> oversized token_limit it -> [it] ∈ bs.

(** What the splitter keeps true of every batch it has built. *)
Definition good (token_limit : Z) (b : list item) : Prop :=
  within_limit token_limit b /\ oversized_alone token_limit b.

Definition nonneg_estimates (payload : list item) : Prop :=
  Forall (fun it => 0 <= item_tokens it) payload.

(** Loop invariant of the splitter. *)
Record split_inv (token_limit : Z) (st : Splitter.state) : Prop := SplitInv {
  inv_sum : Splitter.current_tokens st = sum_tokens (Splitter.current_batch st);
  inv_nonneg : nonneg_estimates (Splitter.current_batch st);
  inv_batches : Forall (good token_limit) (Splitter.batches st);
  inv_current : good token_limit (Splitter.current_batch st)
}.

(** ** Concrete inputs used in the examples *)

Definition mk_item (name : string) (t : Z) : item :=
  Item name (Some (Meta (Some t))) "".

(** ** Reading a trace *)

Section Traces.
Context {money : Type}.

(** The delays slept, in order. *)
Definition sleeps (t : list (event money)) : list Z :=
  omap (fun ev => match ev with EvSleep d => Some d | _ => None end) t.

(** The attempt numbers of the submissions, in order. *)
Definition attempts_of (t : list (event money)) : list nat :=
  omap (fun ev => match ev with EvSubmit _ a _ _ => Some a | _ => None end) t.

(** The world after [k] more submissions that logged [evs]. *)
Definition advanced (w : world money) (k : nat) (evs : list (event money)) : world money :=
  set_trace (trace w ++ evs) (set_submissions (submissions w + k) w).

End Traces.

(** The outcomes lines 38-57 answer with a sleep and a longer delay. *)
Definition retryable (o : outcome) : bool :=
  match o with
  | Raises => true
  | Polled _ status => String.eqb status "cancelled" || String.eqb status "failed"
  end.

Definition completed (o : outcome) : bool :=
  match o with
  | Raises => false
  | Polled _ status => String.eqb status "completed"
  end.

(** The first [n] delays of the backoff, starting from [delay]. *)
Fixpoint delays (n : nat) (delay : Z) : list Z :=
  match n with
  | O => []
  | S n' => delay :: delays n' (next_delay delay)
  end.

Section Expected.
Context {money : Type}.

(** What a run of failed attempts leaves in the trace. *)
Fixpoint failure_events (label : string) (batch_items : list item) (model : string)
    (attempts : list nat) (delay : Z) : list (event money) :=
  match attempts with
  | [] => []
  | attempt :: rest =>
      EvSubmit label attempt batch_items model :: EvSleep delay
        :: failure_events label batch_items model rest (next_delay delay)
  end.

End Expected.

Section Storage.
Context {money : Type}.

(** The item is on some line of some deferred file. *)
Definition stored (w : world money) (it : item) : Prop :=
  exists path items, deferred w !! path = Some items /\ it ∈ items.

End Storage.

(** ** Concrete collaborators used in the examples

    Money is counted in whole cents.  The decoder knows the texts of the
    examples and rejects every other text. *)

Definition dq : string := String (Ascii.ascii_of_nat 34) EmptyString.

Definition quoted (s : string) : string := dq +:+ s +:+ dq.

(** JSON string escaping of the quote and the backslash. *)
Fixpoint json_escape (s : string) : string :=
  match s with
  | EmptyString => EmptyString
  | String c rest =>
      if Ascii.eqb c (Ascii.ascii_of_nat 34) || Ascii.eqb c (Ascii.ascii_of_nat 92)
      then String (Ascii.ascii_of_nat 92) (String c (json_escape rest))
      else String c (json_escape rest)
  end.

(** A result line as the batch service writes it, with [content] as the
    JSON-encoded string of the content field. *)
Definition result_line (id content : string) : string :=
  "{" +:+ quoted "custom_id" +:+ ": " +:+ quoted id +:+ ", " +:+ quoted "response"
  +:+ ": {" +:+ quoted "body" +:+ ": {" +:+ quoted "choices" +:+ ": [{"
  +:+ quoted "message" +:+ ": {" +:+ quoted "content" +:+ ": "
  +:+ quoted (json_escape content) +:+ "}}]}}}".

(** The text of a scores object. *)
Definition scores_text (r e p : string) : string :=
  "{" +:+ quoted "relevance_score" +:+ ": " +:+ r +:+ ", "
  +:+ quoted "emotional_intensity" +:+ ": " +:+ e +:+ ", "
  +:+ quoted "pain_point_clarity" +:+ ": " +:+ p +:+ "}".

Definition scores_json (r e p : Z) : json :=
  JObj [("relevance_score", JNum r); ("emotional_intensity", JNum e);
        ("pain_point_clarity", JNum p)].

Definition result_json (id content : string) : json :=
  JObj [("custom_id", JStr id);
        ("response",
         JObj [("body",
                JObj [("choices",
                       JArr [JObj [("message", JObj [("content", JStr content)])]])])])].

(** [json.loads] on the texts of the examples. *)
Definition demo_table : list (string * json) :=
  [(result_line "p1" (scores_text "9" "8" "7"), result_json "p1" (scores_text "9" "8" "7"));
   (result_line "p2" (scores_text "1" "2" "3"), result_json "p2" (scores_text "1" "2" "3"));
   (scores_text "9" "8" "7", scores_json 9 8 7);
   (scores_text "1" "2" "3", scores_json 1 2 3);
   (result_line "p1" "[1, 2]", result_json "p1" "[1, 2]");
   (result_line "p2" "[3]", result_json "p2" "[3]");
   ("[1, 2]", JArr [JNum 1; JNum 2]);
   ("[3]", JArr [JNum 3])].

Definition demo_loads (s : string) : option json :=
  snd <$> List.find (fun kv => String.eqb (fst kv) s) demo_table.

Definition demo_mul (a b : json) : option json :=
  match a, b with
  | JNum x, JNum y => Some (JNum (x * y))
  | _, _ => None
  end.

Definition demo_add (a b : json) : option json :=
  match a, b with
  | JNum x, JNum y => Some (JNum (x + y))
  | _, _ => None
  end.

Definition demo_ge (a : json) : option bool :=
  match a with
  | JNum x => Some (Z.leb 7 x)
  | _ => None
  end.

Definition demo_weights : json :=
  JObj [("relevance_weight", JNum 1); ("emotion_weight", JNum 1);
        ("pain_point_weight", JNum 1)].

Definition demo_posts : list post :=
  [Post "p1" (Some "first") (Some "text"); Post "p2" (Some "second") (Some "text")].

(** One item per post, each with the given estimate. *)
Definition demo_batch (tokens : Z) (posts : list post) : list item :=
  (fun p => mk_item (post_name p) tokens) <$> posts.

Definition scenario (svc : nat -> outcome) (wr : string -> bool)
    (res : string -> option (list string)) (tokens : Z) : collab Z :=
  {| service := svc;
     write_raises := wr;
     results_of := res;
     uuid4_hex := fun k => String.concat "" (replicate k "f");
     json_loads := demo_loads;
     py_mul := demo_mul;
     py_add := demo_add;
     py_ge_threshold := demo_ge;
     weights := demo_weights;
     db_raises := fun _ _ => false;
     sanitize_text := fun s => s;
     scrape_all_configured_subreddits := demo_posts;
     prepare_filter_batch := demo_batch tokens;
     estimate_filter_cost := fun posts => Z.of_nat (length posts);
     can_process_batch := fun _ _ => true;
     get_posts_by_ids := fun _ => demo_posts;
     prepare_insight_batch := demo_batch tokens;
     estimate_insight_cost := fun items => Z.of_nat (length items);
     model_filter := "model-filter";
     model_deep := "model-deep";
     is_old := fun _ => false;
     remove_raises := fun _ => false |}.

Definition always_failed : nat -> outcome := fun _ => Polled "batch_1" "failed".

Definition third_completes : nat -> outcome := fun k =>
  if (k <? 2)%nat then Polled "batch_1" "failed" else Polled "batch_3" "completed".

Definition never_raises : string -> bool := fun _ => false.

Definition no_results : string -> option (list string) := fun _ => Some [].

Definition start : world Z := empty_world.

(** ** Statements about runs *)

Section Runs.
Context {money : Type}.

(** Whatever the start, [c] only appends events, and they all satisfy [P]. *)
Definition emits_only (P : event money -> Prop) {A} (c : M money A) : Prop :=
  forall w, exists evs, trace (c w).2 = trace w ++ evs /\ Forall P evs.

(** Whatever the start, [c] ends without an exception. *)
Definition safe {A} (c : M money A) : Prop :=
  forall w, exists a, (c w).1 = inr a.

(** [c] never raises and appends exactly [pre]. *)
Definition emits_exactly (pre : list (event money)) {A} (c : M money A) : Prop :=
  forall w, (exists a, (c w).1 = inr a) /\ trace (c w).2 = trace w ++ pre.

(** [c] appends [pre] and then only events that satisfy [P]. *)
Definition starts_with (pre : list (event money)) (P : event money -> Prop)
    {A} (c : M money A) : Prop :=
  forall w, exists evs, trace (c w).2 = trace w ++ pre ++ evs /\ Forall P evs.

Definition is_gate (ev : event money) : Prop :=
  match ev with EvCanProcess _ => True | _ => False end.

Definition is_commit (ev : event money) : Prop :=
  match ev with EvAddCost _ _ => True | _ => False end.

Definition not_gate (ev : event money) : Prop := ~ is_gate ev.

Definition not_commit (ev : event money) : Prop := ~ is_commit ev.

(** The costs passed to can_process_batch, in order. *)
Definition gate_checks (t : list (event money)) : list money :=
  omap (fun ev => match ev with EvCanProcess c => Some c | _ => None end) t.

(** [c] calls can_process_batch at most [n] times. *)
Definition gates_at_most (n : nat) {A} (c : M money A) : Prop :=
  forall w, exists costs,
    gate_checks (trace (c w).2) = gate_checks (trace w) ++ costs
    /\ (length costs <= n)%nat.

(** The sub-batches whose first attempt is in the trace, in order. *)
Definition sub_batches_started (t : list (event money)) : list (list item) :=
  omap (fun ev => match ev with EvSubmit _ 1 b _ => Some b | _ => None end) t.

(** Every first attempt of a sub-batch has a budget check of its own
    between the previous first attempt and itself; [fresh] tells whether
    such a check is pending. *)
Fixpoint gated_per_sub_batch (fresh : bool) (t : list (event money)) : bool :=
  match t with
  | [] => true
  | EvCanProcess _ :: rest => gated_per_sub_batch true rest
  | EvSubmit _ 1 _ _ :: rest => fresh && gated_per_sub_batch false rest
  | _ :: rest => gated_per_sub_batch fresh rest
  end.

(** Every ledger commit of a sub-batch comes after a submission of that
    sub-batch; [submitted] are the sub-batches submitted so far. *)
Fixpoint commits_follow_submissions (submitted : list (list item))
    (t : list (event money)) : bool :=
  match t with
  | [] => true
  | EvSubmit _ _ b _ :: rest => commits_follow_submissions (b :: submitted) rest
  | EvAddCost b _ :: rest =>
      bool_decide (b ∈ submitted) && commits_follow_submissions submitted rest
  | _ :: rest => commits_follow_submissions submitted rest
  end.

End Runs.

Definition all_completed : nat -> outcome := fun _ => Polled "batch_1" "completed".


(** Two result files of the insight stage; the first line of the first
    file is not JSON. *)
Definition insight_path_a : string := "data/batch_responses/insight_result_a.jsonl".
Definition insight_path_b : string := "data/batch_responses/insight_result_b.jsonl".

Definition insight_files (first_line : string) : list (string * list string) :=
  [(insight_path_a, [first_line; result_line "p1" "[1, 2]"]);
   (insight_path_b, [result_line "p2" "[3]"])].

(** A filter result file with an undecodable line in the middle. *)
Definition filter_files : list (string * list string) :=
  [("data/batch_responses/filter_result_a.jsonl",
    [result_line "p1" (scores_text "9" "8" "7"); "oops";
     result_line "p1" (scores_text "9" "8" "7")])].


(** ** Further statements about the splitter *)

(** Every sub-batch is followed by one whose first item would not have
    fitted into it. *)
Fixpoint packed (token_limit : Z) (bs : list (list item)) : Prop :=
  match bs with
  | [] => True
  | b :: rest =>
      match rest with
      | (x :: _) :: _ => token_limit < sum_tokens b + item_tokens x
      | _ => True
      end
      /\ packed token_limit rest
  end.

(** The closing of a batch in front of [b], seen from the last batch of [l]. *)
Definition overflows (token_limit : Z) (l : list (list item)) (b : list item) : Prop :=
  match last l, b with
  | Some p, x :: _ => token_limit < sum_tokens p + item_tokens x
  | _, _ => True
  end.

(** What the loop of the splitter keeps true of the batches closed so far
    and the running one. *)
Record packed_inv (token_limit : Z) (st : Splitter.state) : Prop := PackedInv {
  inv_tokens : Splitter.current_tokens st = sum_tokens (Splitter.current_batch st);
  inv_packed : packed token_limit (Splitter.batches st ++ [Splitter.current_batch st]);
  inv_first : Splitter.current_batch st = [] -> Splitter.batches st = []
}.

(** ** Further statements about the backoff submitter *)

(** The delay before retry number [k], counted from 0. *)
Definition capped_delay (k : nat) : Z := Z.min (10 * 2 ^ Z.of_nat k) 3600.

(** A polled status that none of the three branches of lines 36-51 tests for. *)
Definition unknown_status (o : outcome) : bool :=
  match o with
  | Raises => false
  | Polled _ status =>
      negb (String.eqb status "completed") && negb (String.eqb status "cancelled")
      && negb (String.eqb status "failed")
  end.

Section BackoffStatements.
Context {money : Type}.

(** How an attempt can end: with the job identifier, with a sleep and the
    next delay, or with neither sleep nor change of delay. *)
Definition attempt_result (delay : Z) (r : control) (evs : list (event money)) : Prop :=
  (exists batch_id, r = Return batch_id /\ evs = [])
  \/ (r = Continue (next_delay delay) /\ evs = [EvSleep delay])
  \/ (r = Continue delay /\ evs = []).

End BackoffStatements.

Definition always_expired : nat -> outcome := fun _ => Polled "batch_1" "expired".

(** ** Statements about clean_old_batch_files *)

Section CleaningStatements.
Context {money : Type} (C : collab money).

(** The file is a .jsonl file older than the retention cutoff. *)
Definition expired (path : string) : bool :=
  ends_with ".jsonl" path && is_old C path.

(** One warning for each listed file that is expired and cannot be
    removed. *)
Definition removal_warnings (paths : list string) : list (event money) :=
  omap (fun path =>
          if expired path && remove_raises C path
          then Some (EvLogError OldFile) else None) paths.

(** The file goes away when [paths] are cleaned. *)
Definition removed_by (paths : list string) (path : string) : bool :=
  expired path && negb (remove_raises C path) && existsb (String.eqb path) paths.

End CleaningStatements.

(** ** Statements about result ingestion *)

Section IngestionStatements.
Context {money : Type} (C : collab money).

(** Lines 122-131 without their effects: the post id, the scores and the
    outcome of the threshold test, when every step has a value. *)
Definition decode_filter_line (line : string) : option (json * json * bool) :=
  result ← json_loads C line;
  post_id ← get_key "custom_id" result;
  content ← message_content result;
  scores ← loads_value C content;
  score ← weighted_score C scores;
  high ← py_ge_threshold C score;
  Some (post_id, scores, high).

(** The post id and scores a line contributes to the selection. *)
Definition selected_by_line (line : string) : option (json * json) :=
  match decode_filter_line line with
  | Some (post_id, scores, true) =>
      if hashable post_id then Some (post_id, scores) else None
  | _ => None
  end.

(** What a line of a filter result file leaves in the trace. *)
Definition filter_line_events (line : string) : list (event money) :=
  match decode_filter_line line with
  | None => [EvLogError FilterLine]
  | Some (post_id, scores, false) => []
  | Some (post_id, scores, true) =>
      if hashable post_id then
        EvDb UpdateFilterScores post_id (Some scores)
          :: (if db_raises C UpdateFilterScores post_id
              then [EvLogError FilterLine] else [])
      else [EvLogError FilterLine]
  end.

(** The world after some lines of filter result files. *)
Definition after_filter_lines (lines : list string) (w : world money) : world money :=
  set_trace (trace w ++ concat (filter_line_events <$> lines))
    (set_high_ids (high_ids w ++ omap (fun l => fst <$> selected_by_line l) lines) w).





End IngestionStatements.

(** ** Further statements about runs *)

Section FrameStatements.
Context {money : Type}.

(** [c] leaves the part [f] of the world as it found it. *)
Definition preserves {X} (f : world money -> X) {A} (c : M money A) : Prop :=
  forall w, f (c w).2 = f w.

(** The first attempt of some sub-batch. *)
Definition first_attempt (ev : event money) : Prop :=
  match ev with EvSubmit _ 1 _ _ => True | _ => False end.

Definition later_event (ev : event money) : Prop := ~ first_attempt ev.

End FrameStatements.


(** Variants of a collaborator record for the examples. *)
Definition with_posts {money : Type} (posts : list post) (c : collab money) : collab money :=
  {| service := service c; write_raises := write_raises c; results_of := results_of c;
     uuid4_hex := uuid4_hex c; json_loads := json_loads c; py_mul := py_mul c;
     py_add := py_add c; py_ge_threshold := py_ge_threshold c; weights := weights c;
     db_raises := db_raises c; sanitize_text := sanitize_text c;
     scrape_all_configured_subreddits := posts;
     prepare_filter_batch := prepare_filter_batch c;
     estimate_filter_cost := estimate_filter_cost c;
     can_process_batch := can_process_batch c; get_posts_by_ids := get_posts_by_ids c;
     prepare_insight_batch := prepare_insight_batch c;
     estimate_insight_cost := estimate_insight_cost c;
     model_filter := model_filter c; model_deep := model_deep c;
     is_old := is_old c; remove_raises := remove_raises c |}.

Definition with_budget {money : Type}
    (gate : list (list item * string) -> money -> bool) (c : collab money) : collab money :=
  {| service := service c; write_raises := write_raises c; results_of := results_of c;
     uuid4_hex := uuid4_hex c; json_loads := json_loads c; py_mul := py_mul c;
     py_add := py_add c; py_ge_threshold := py_ge_threshold c; weights := weights c;
     db_raises := db_raises c; sanitize_text := sanitize_text c;
     scrape_all_configured_subreddits := scrape_all_configured_subreddits c;
     prepare_filter_batch := prepare_filter_batch c;
     estimate_filter_cost := estimate_filter_cost c;
     can_process_batch := gate; get_posts_by_ids := get_posts_by_ids c;
     prepare_insight_batch := prepare_insight_batch c;
     estimate_insight_cost := estimate_insight_cost c;
     model_filter := model_filter c; model_deep := model_deep c;
     is_old := is_old c; remove_raises := remove_raises c |}.

(** A budget that is used up. *)
Definition no_budget : list (list item * string) -> Z -> bool := fun _ _ => false.

(** A post without a body. *)
Definition untitled_posts : list post := [Post "p0" (Some "title only") None].

(** A service that reports a completed job without an identifier. *)
Definition unnamed_job : nat -> outcome := fun _ => Polled "" "completed".

(** * Properties of the splitter *)

Module SplitterFacts.
Import Splitter.

Lemma sum_tokens_snoc (b : list item) (it : item) :
  sum_tokens (b ++ [it]) = sum_tokens b + item_tokens it.
Proof. induction b as [|x b IH]; simpl; lia. Qed.

Lemma concat_finish (st : state) :
  concat (finish st) = concat (batches st) ++ current_batch st.
Proof.
  unfold finish. destruct (current_batch st) as [|x l].
  - by rewrite app_nil_r.
  - rewrite concat_app. simpl. by rewrite app_nil_r.
Qed.

Lemma concat_step (token_limit : Z) (st : state) (it : item) :
  concat (batches (step token_limit st it)) ++ current_batch (step token_limit st it)
  = concat (batches st) ++ current_batch st ++ [it].
Proof.
  unfold step, flush. destruct (_ >? _); simpl; [|done].
  rewrite concat_app. simpl. by rewrite app_nil_r, <- app_assoc.
Qed.

Lemma concat_loop (token_limit : Z) (payload : list item) (st : state) :
  concat (finish (loop token_limit payload st))
  = concat (batches st) ++ current_batch st ++ payload.
Proof.
  unfold loop. revert st. induction payload as [|it payload IH]; intros st; simpl.
  - rewrite concat_finish. by rewrite app_nil_r.
  - rewrite IH, app_assoc, concat_step. by rewrite <- !app_assoc.
Qed.

Lemma concat_split (payload : list item) (model : string) (token_limit : Z) :
  concat (split_batch_by_token_limit payload model token_limit) = payload.
Proof. unfold split_batch_by_token_limit. by rewrite concat_loop. Qed.

End SplitterFacts.

(** The scenario of the specification: estimates 150000, 100000, 50000. *)
Example split_scenario :
  split_batch_by_token_limit
    [mk_item "a" 150000; mk_item "b" 100000; mk_item "c" 50000] "m" default_token_limit
  = [[mk_item "a" 150000]; [mk_item "b" 100000; mk_item "c" 50000]].
Proof. reflexivity. Qed.

Example split_oversized_first :
  split_batch_by_token_limit [mk_item "a" 250000; mk_item "b" 1] "m" default_token_limit
  = [[]; [mk_item "a" 250000]; [mk_item "b" 1]].
Proof. reflexivity. Qed.

Example split_absent_estimate :
  item_tokens (Item "a" None "") = 300
  /\ item_tokens (Item "a" (Some (Meta None)) "") = 300.
Proof. split; reflexivity. Qed.

(** C6. Partition completeness: the sub-batches, concatenated in order, are
    the input list, and the empty input gives no sub-batch at all. *)
Theorem split_concat (payload : list item) (model : string) (token_limit : Z) :
  concat (split_batch_by_token_limit payload model token_limit) = payload
  /\ split_batch_by_token_limit [] model token_limit = [].
Proof.
  split; [apply SplitterFacts.concat_split|reflexivity].
Qed.

Module TokenBound.
Import Splitter.

Section Limit.
Variable token_limit : Z.
Hypothesis limit_nonneg : 0 <= token_limit.

Lemma sum_tokens_nonneg (b : list item) :
  nonneg_estimates b -> 0 <= sum_tokens b.
Proof. induction 1; simpl; lia. Qed.

Lemma good_nil : good token_limit [].
Proof.
  split.
  - left. simpl. lia.
  - intros it Hin. by apply elem_of_nil in Hin.
Qed.

Lemma good_singleton (it : item) : good token_limit [it].
Proof.
  split.
  - destruct (Z_le_gt_dec (item_tokens it) token_limit) as [Hle|Hgt].
    + left. simpl. lia.
    + right. exists it. split; [done|]. unfold oversized. lia.
  - intros x Hin _. apply list_elem_of_singleton in Hin. by subst.
Qed.

Lemma inv_init : split_inv token_limit init.
Proof. split; simpl; [done|constructor|constructor|apply good_nil]. Qed.

Lemma inv_step (st : state) (it : item) :
  0 <= item_tokens it -> split_inv token_limit st -> split_inv token_limit (step token_limit st it).
Proof.
  intros Hit [Hsum Hnn Hbs Hcur]. unfold step, flush.
  destruct (Z.gtb_spec (current_tokens st + item_tokens it) token_limit) as [Hgt|Hle];
    simpl.
  - split; simpl.
    + lia.
    + by repeat constructor.
    + apply Forall_app. split; [done|by constructor].
    + apply good_singleton.
  - pose proof (sum_tokens_nonneg _ Hnn) as Hpos.
    split; simpl.
    + rewrite SplitterFacts.sum_tokens_snoc. lia.
    + apply Forall_app. split; [done|by repeat constructor].
    + done.
    + split.
      * left. rewrite SplitterFacts.sum_tokens_snoc. lia.
      * intros x Hin Hover. exfalso. unfold oversized in Hover.
        apply elem_of_app in Hin as [Hin|Hin].
        -- destruct Hcur as [_ Halone].
           specialize (Halone x Hin Hover). rewrite Halone in Hsum.
           simpl in Hsum. lia.
        -- apply list_elem_of_singleton in Hin. subst x. lia.
Qed.

Lemma inv_loop (payload : list item) (st : state) :
  nonneg_estimates payload -> split_inv token_limit st ->
  split_inv token_limit (loop token_limit payload st).
Proof.
  unfold loop. intros Hnn. revert st.
  induction Hnn as [|it payload Hit _ IH]; intros st Hinv; simpl; [done|].
  apply IH. by apply inv_step.
Qed.

Lemma good_finish (st : state) :
  split_inv token_limit st -> Forall (good token_limit) (finish st).
Proof.
  intros [_ _ Hbs Hcur]. unfold finish.
  destruct (current_batch st); [done|].
  apply Forall_app. split; [done|by constructor].
Qed.

End Limit.

End TokenBound.

(** C7 (amended). With a token limit that is not negative and estimates
    that are not negative (an absent estimate counting as 300), every
    sub-batch sums to at most the limit or is a single item above the limit;
    an item above the limit sits alone in its sub-batch and is kept. *)
Theorem split_token_bound (payload : list item) (model : string) (token_limit : Z) :
  0 <= token_limit ->
  nonneg_estimates payload ->
  token_bound payload model token_limit.
Proof.
  intros Hlim Hnn.
  assert (Forall (good token_limit)
            (split_batch_by_token_limit payload model token_limit)) as Hgood.
  { apply TokenBound.good_finish, TokenBound.inv_loop; [done..|].
    by apply TokenBound.inv_init. }
  split; [|split].
  - eapply Forall_impl; [exact Hgood|]. by intros b [? _].
  - eapply Forall_impl; [exact Hgood|]. by intros b [_ ?].
  - intros it Hin Hover.
    rewrite <- (SplitterFacts.concat_split payload model token_limit) in Hin.
    apply list_elem_of_In, in_concat in Hin as (b & Hb & Hitb).
    apply list_elem_of_In in Hb, Hitb.
    rewrite Forall_forall in Hgood. destruct (Hgood b Hb) as [_ Halone].
    by rewrite <- (Halone it Hitb Hover).
Qed.

Lemma split_token_bound_witness :
  token_bound [mk_item "a" 150000; mk_item "b" 100000; mk_item "c" 50000]
              "m" default_token_limit.
Proof.
  apply split_token_bound.
  - unfold default_token_limit. lia.
  - unfold nonneg_estimates.
    repeat (apply Forall_cons; split; [unfold item_tokens; simpl; lia|]).
    by apply Forall_nil.
Defined.

(** With the limit -1 an item of estimate 0 is preceded by an empty
    sub-batch, whose sum 0 is above the limit and which is no singleton. *)
Lemma split_token_bound_negative_limit :
  split_batch_by_token_limit [mk_item "a" 0] "m" (-1) = [[]; [mk_item "a" 0]]
  /\ ~ token_bound [mk_item "a" 0] "m" (-1).
Proof.
  split; [reflexivity|].
  intros [Hwithin _]. vm_compute split_batch_by_token_limit in Hwithin.
  apply Forall_cons in Hwithin as [[Hsum|(it & Hit & _)] _].
  - simpl in Hsum. lia.
  - discriminate Hit.
Qed.

Module EmptyBatch.
Import Splitter.

Lemma step_current_nonempty (token_limit : Z) (st : state) (it : item) :
  current_batch (step token_limit st it) <> [].
Proof. unfold step. simpl. intros H. by apply app_eq_nil in H as [_ H]. Qed.

(** Once the running batch holds an item, every batch closed later on
    holds one too. *)
Lemma loop_appends_nonempty (token_limit : Z) (payload : list item) (st : state) :
  current_batch st <> [] ->
  exists more,
    finish (loop token_limit payload st) = batches st ++ more
    /\ Forall (fun b => b <> []) more.
Proof.
  unfold loop. revert st.
  induction payload as [|it payload IH]; intros st Hcur; simpl.
  - unfold finish. destruct (current_batch st) as [|x l] eqn:E; [done|].
    exists [x :: l]. split; [done|]. by repeat constructor.
  - destruct (IH (step token_limit st it)) as (more & Heq & Hmore).
    { apply step_current_nonempty. }
    rewrite Heq. unfold step, flush.
    destruct (_ >? _); simpl.
    + exists (current_batch st :: more). split.
      * by rewrite <- app_assoc.
      * by constructor.
    + by exists more.
Qed.

Lemma split_cons (token_limit : Z) (it : item) (rest : list item) (model : string) :
  exists more,
    split_batch_by_token_limit (it :: rest) model token_limit
    = (if item_tokens it >? token_limit then [[]] else []) ++ more
    /\ Forall (fun b => b <> []) more.
Proof.
  unfold split_batch_by_token_limit, loop. simpl.
  destruct (loop_appends_nonempty token_limit rest (step token_limit init it))
    as (more & Heq & Hmore).
  { apply step_current_nonempty. }
  exists more. split; [|done].
  unfold loop in Heq. rewrite Heq. unfold step, flush. simpl.
  rewrite Z.add_0_l. by destruct (item_tokens it >? token_limit).
Qed.

End EmptyBatch.

(** C10. When the first item is above the limit the result starts with an
    empty sub-batch; whatever the input, no sub-batch after the first one
    is empty. *)
Theorem split_leading_empty (payload : list item) (model : string) (token_limit : Z) :
  Forall (fun b => b <> []) (tail (split_batch_by_token_limit payload model token_limit))
  /\ forall it rest,
       payload = it :: rest ->
       oversized token_limit it ->
       head (split_batch_by_token_limit payload model token_limit) = Some [].
Proof.
  split.
  - destruct payload as [|it rest]; [by constructor|].
    destruct (EmptyBatch.split_cons token_limit it rest model) as (more & -> & Hmore).
    destruct (_ >? _); simpl; [done|].
    destruct Hmore; simpl; [constructor|done].
  - intros it rest -> Hover.
    destruct (EmptyBatch.split_cons token_limit it rest model) as (more & -> & _).
    unfold oversized in Hover.
    destruct (Z.gtb_spec (item_tokens it) token_limit); [done|lia].
Qed.

Lemma split_leading_empty_witness :
  head (split_batch_by_token_limit [mk_item "a" 250000; mk_item "b" 1] "m"
          default_token_limit) = Some [].
Proof.
  refine (proj2 (split_leading_empty _ "m" default_token_limit) _ _ eq_refl _).
  unfold oversized, default_token_limit, item_tokens. simpl. lia.
Defined.

(** * Running monadic code *)

Section Running.
Context {money : Type}.

Lemma run_bind {A B} (c : M money A) (f : A -> M money B) (w : world money) :
  (c ≫= f) w
  = match c w with
    | (inr a, w') => f a w'
    | (inl e, w') => (inl e, w')
    end.
Proof. reflexivity. Qed.

Lemma run_try_except {A} (c : M money A) (h : exn -> M money A) (w : world money) :
  try_except c h w
  = match c w with
    | (inr a, w') => (inr a, w')
    | (inl e, w') => h e w'
    end.
Proof. reflexivity. Qed.

(** ** Events appended by the monad's operations *)

Section Emits.
Variable P : event money -> Prop.

Lemma emits_only_ret {A} (a : A) : emits_only P (mret a).
Proof. intros w. exists []. by rewrite app_nil_r. Qed.

Lemma emits_only_raise {A} (e : exn) : emits_only P (raise (A:=A) e).
Proof. intros w. exists []. by rewrite app_nil_r. Qed.

Lemma emits_only_lift {A} (o : option A) : emits_only P (lift o).
Proof. destruct o; [apply emits_only_ret|apply emits_only_raise]. Qed.

Lemma emits_only_gets {A} (f : world money -> A) : emits_only P (gets f).
Proof. intros w. exists []. by rewrite app_nil_r. Qed.

Lemma emits_only_modify (f : world money -> world money) :
  (forall w, trace (f w) = trace w) -> emits_only P (modify f).
Proof. intros Hf w. exists []. simpl. by rewrite Hf, app_nil_r. Qed.

Lemma emits_only_emit (ev : event money) : P ev -> emits_only P (emit ev).
Proof. intros Hev w. exists [ev]. split; [done|by constructor]. Qed.

Lemma emits_only_bind {A B} (c : M money A) (f : A -> M money B) :
  emits_only P c -> (forall a, emits_only P (f a)) -> emits_only P (c ≫= f).
Proof.
  intros Hc Hf w. rewrite run_bind.
  destruct (Hc w) as (evs & Ht & Hevs). destruct (c w) as [[e|a] w']; simpl in *.
  - by exists evs.
  - destruct (Hf a w') as (evs' & Ht' & Hevs').
    exists (evs ++ evs'). rewrite Ht', Ht, app_assoc. split; [done|].
    by apply Forall_app.
Qed.

Lemma emits_only_try_except {A} (c : M money A) (h : exn -> M money A) :
  emits_only P c -> (forall e, emits_only P (h e)) -> emits_only P (try_except c h).
Proof.
  intros Hc Hh w. rewrite run_try_except.
  destruct (Hc w) as (evs & Ht & Hevs). destruct (c w) as [[e|a] w']; simpl in *.
  - destruct (Hh e w') as (evs' & Ht' & Hevs').
    exists (evs ++ evs'). rewrite Ht', Ht, app_assoc. split; [done|].
    by apply Forall_app.
  - by exists evs.
Qed.

Lemma emits_only_for_each {A} (l : list A) (body : A -> M money unit) :
  (forall x, emits_only P (body x)) -> emits_only P (for_each l body).
Proof.
  intros Hbody. induction l as [|x l IH]; simpl.
  - apply emits_only_ret.
  - apply emits_only_bind; [apply Hbody|by intros _].
Qed.

End Emits.

(** ** Running without an exception *)

Lemma safe_ret {A} (a : A) : safe (money:=money) (mret a).
Proof. intros w. by exists a. Qed.

Lemma safe_gets {A} (f : world money -> A) : safe (gets f).
Proof. intros w. by eexists. Qed.

Lemma safe_modify (f : world money -> world money) : safe (modify f).
Proof. intros w. by eexists. Qed.

Lemma safe_emit (ev : event money) : safe (emit ev).
Proof. intros w. by eexists. Qed.

Lemma safe_bind {A B} (c : M money A) (f : A -> M money B) :
  safe c -> (forall a, safe (f a)) -> safe (c ≫= f).
Proof.
  intros Hc Hf w. rewrite run_bind.
  destruct (Hc w) as (a & Ha). destruct (c w) as [[e|a'] w']; simpl in *; [done|].
  apply Hf.
Qed.

Lemma safe_try_except {A} (c : M money A) (h : exn -> M money A) :
  (forall e, safe (h e)) -> safe (try_except c h).
Proof.
  intros Hh w. rewrite run_try_except.
  destruct (c w) as [[e|a] w']; [apply Hh|by exists a].
Qed.

Lemma safe_for_each {A} (l : list A) (body : A -> M money unit) :
  (forall x, safe (body x)) -> safe (for_each l body).
Proof.
  intros Hbody. induction l as [|x l IH]; simpl.
  - apply safe_ret.
  - apply safe_bind; [apply Hbody|by intros _].
Qed.

End Running.

(** Splits a goal about a composed computation into its effectful leaves. *)
Ltac emits :=
  repeat first
    [ solve [auto 2]
    | apply emits_only_ret
    | apply emits_only_raise
    | apply emits_only_lift
    | apply emits_only_gets
    | apply emits_only_modify; intros; reflexivity
    | apply emits_only_emit; solve [auto]
    | apply emits_only_bind; [|intros]
    | apply emits_only_try_except; [|intros]
    | apply emits_only_for_each; intros
    | match goal with
      | |- emits_only _ (if ?b then _ else _) => destruct b
      | |- emits_only _ (match ?x with _ => _ end) => destruct x
      end ].

(** Closes the side conditions on the events a computation may append. *)
Ltac allowed := intros; unfold not_gate, not_commit; simpl; tauto.

Ltac safety :=
  repeat first
    [ solve [auto 2]
    | apply safe_ret
    | apply safe_gets
    | apply safe_modify
    | apply safe_emit
    | apply safe_try_except; intros
    | apply safe_bind; [|intros]
    | apply safe_for_each; intros
    | match goal with
      | |- safe (if ?b then _ else _) => destruct b
      | |- safe (match ?x with _ => _ end) => destruct x
      end ].

(** * Properties of the backoff submitter *)

Section Backoff.
Context {money : Type} (C : collab money).

Lemma set_trace_submissions (w : world money) t t' n n' :
  set_trace t (set_submissions n (set_trace t' (set_submissions n' w)))
  = set_trace t (set_submissions n w).
Proof. by destruct w. Qed.

Lemma advanced_advanced (w : world money) k k' evs evs' :
  advanced (advanced w k evs) k' evs' = advanced w (k + k') (evs ++ evs').
Proof.
  destruct w. unfold advanced. simpl. unfold set_trace, set_submissions. simpl.
  by rewrite app_assoc, Nat.add_assoc.
Qed.

Lemma attempt_once_retryable label batch_items model attempt delay w :
  retryable (service C (submissions w)) = true ->
  attempt_once C label batch_items model attempt delay w
  = (inr (Continue (next_delay delay)),
     advanced w 1 [EvSubmit label attempt batch_items model; EvSleep delay]).
Proof.
  intros Hr. unfold attempt_once, try_except, submit_and_poll.
  unfold mbind, M_bind, gets, modify, emit, sleep, mret, M_ret, raise. simpl.
  destruct (service C (submissions w)) as [|batch_id status] eqn:E; simpl in *.
  - unfold emit, modify. simpl. destruct w. unfold advanced. simpl.
    by rewrite <- app_assoc, Nat.add_1_r.
  - destruct (String.eqb_spec status "cancelled") as [->|Hc]; simpl.
    + destruct w. unfold advanced. simpl. by rewrite <- app_assoc, Nat.add_1_r.
    + destruct (String.eqb_spec status "failed") as [->|Hf]; [|done]. simpl.
      destruct w. unfold advanced. simpl. by rewrite <- app_assoc, Nat.add_1_r.
Qed.

Lemma advanced_0 (w : world money) : advanced w 0 [] = w.
Proof.
  destruct w. unfold advanced, set_trace, set_submissions. simpl.
  by rewrite app_nil_r, Nat.add_0_r.
Qed.

Lemma retry_loop_all_retryable label batch_items model attempts delay w :
  (forall k, (k < length attempts)%nat ->
             retryable (service C (submissions w + k)) = true) ->
  retry_loop C label batch_items model attempts delay w
  = (inr None,
     advanced w (length attempts) (failure_events label batch_items model attempts delay)).
Proof.
  revert delay w. induction attempts as [|attempt rest IH]; intros delay w Hall.
  - simpl. by rewrite advanced_0.
  - simpl. unfold mbind, M_bind.
    rewrite attempt_once_retryable.
    2:{ specialize (Hall 0%nat). rewrite Nat.add_0_r in Hall. apply Hall. simpl. lia. }
    rewrite IH.
    + by rewrite advanced_advanced.
    + intros k Hk. replace (submissions (advanced w 1 _) + k)%nat
        with (submissions w + S k)%nat by (destruct w; simpl; lia).
      apply Hall. simpl. lia.
Qed.

Lemma sleeps_failure_events label batch_items model attempts delay :
  sleeps (failure_events (money:=money) label batch_items model attempts delay)
  = delays (length attempts) delay.
Proof.
  revert delay. induction attempts as [|a rest IH]; intros delay; simpl; [done|].
  by rewrite IH.
Qed.

Lemma attempts_failure_events label batch_items model attempts delay :
  attempts_of (failure_events (money:=money) label batch_items model attempts delay)
  = attempts.
Proof.
  revert delay. induction attempts as [|a rest IH]; intros delay; simpl; [done|].
  by rewrite IH.
Qed.

(** C1 (amended). When all twenty attempts end in a retryable outcome,
    submit_with_backoff sleeps after every one of them, the last included:
    twenty sleeps of 10, 20, 40, ..., 2560 and then 3600 eleven times.  It
    then writes the items, as they were passed, to the deferred file of the
    label and returns None. *)
Theorem backoff_exhausted label batch_items model w :
  (forall k, (k < 20)%nat -> retryable (service C (submissions w + k)) = true) ->
  write_raises C (deferred_path "data/deferred" label) = false ->
  let r := submit_with_backoff C batch_items model label w in
  r.1 = inr None
  /\ (exists evs,
        trace r.2 = trace w ++ evs
                      ++ [EvPersist (deferred_path "data/deferred" label) batch_items]
        /\ attempts_of evs = seq 1 20
        /\ sleeps evs = [10; 20; 40; 80; 160; 320; 640; 1280; 2560; 3600;
                         3600; 3600; 3600; 3600; 3600; 3600; 3600; 3600; 3600; 3600]
        /\ last evs = Some (EvSleep 3600))
  /\ deferred r.2 !! deferred_path "data/deferred" label = Some batch_items.
Proof.
  intros Hall Hw. unfold submit_with_backoff, mbind, M_bind.
  rewrite retry_loop_all_retryable by (rewrite length_seq; exact Hall).
  unfold save_failed_batch. rewrite Hw.
  unfold mbind, M_bind, modify, emit, mret, M_ret, modify. cbn [fst snd].
  split; [done|]. split.
  - eexists. split; [|split; [|split]].
    + destruct w. unfold advanced. cbn [trace set_trace set_deferred set_submissions].
      rewrite <- app_assoc. reflexivity.
    + by rewrite attempts_failure_events.
    + by rewrite sleeps_failure_events.
    + reflexivity.
  - destruct w. cbn. apply lookup_insert_eq.
Qed.

Lemma attempt_once_completed label batch_items model attempt delay w batch_id :
  service C (submissions w) = Polled batch_id "completed" ->
  attempt_once C label batch_items model attempt delay w
  = (inr (Return batch_id), advanced w 1 [EvSubmit label attempt batch_items model]).
Proof.
  intros Hs. unfold attempt_once, try_except, submit_and_poll.
  unfold mbind, M_bind, gets, modify, emit, mret, M_ret. simpl.
  rewrite Hs. simpl. destruct w. unfold advanced. simpl. by rewrite Nat.add_1_r.
Qed.

Lemma attempt_once_not_completed label batch_items model attempt delay w :
  completed (service C (submissions w)) = false ->
  exists delay' evs,
    attempt_once C label batch_items model attempt delay w
    = (inr (Continue delay'),
       advanced w 1 (EvSubmit label attempt batch_items model :: evs))
    /\ attempts_of evs = [] /\ (length (sleeps evs) <= 1)%nat.
Proof.
  intros Hc. unfold attempt_once, try_except, submit_and_poll.
  unfold mbind, M_bind, gets, modify, emit, sleep, mret, M_ret, raise. simpl.
  destruct (service C (submissions w)) as [|batch_id status] eqn:E; simpl in *.
  - exists (next_delay delay), [EvSleep delay]. split; [|by simpl].
    unfold emit, modify. destruct w. unfold advanced. simpl.
    by rewrite <- app_assoc, Nat.add_1_r.
  - rewrite Hc.
    destruct (String.eqb status "cancelled"); [|destruct (String.eqb status "failed")];
      simpl.
    + exists (next_delay delay), [EvSleep delay]. split; [|by simpl].
      destruct w. unfold advanced. simpl. by rewrite <- app_assoc, Nat.add_1_r.
    + exists (next_delay delay), [EvSleep delay]. split; [|by simpl].
      destruct w. unfold advanced. simpl. by rewrite <- app_assoc, Nat.add_1_r.
    + exists delay, []. split; [|simpl; split; [done|lia]].
      destruct w. unfold advanced. simpl. by rewrite Nat.add_1_r.
Qed.

Lemma retry_loop_completes label batch_items model pre attempt post delay w batch_id :
  service C (submissions w + length pre) = Polled batch_id "completed" ->
  (forall k, (k < length pre)%nat ->
             completed (service C (submissions w + k)) = false) ->
  exists evs,
    retry_loop C label batch_items model (pre ++ attempt :: post) delay w
    = (inr (Some batch_id),
       advanced w (S (length pre)) (evs ++ [EvSubmit label attempt batch_items model]))
    /\ attempts_of evs = pre /\ (length (sleeps evs) <= length pre)%nat.
Proof.
  revert delay w. induction pre as [|a pre IH]; intros delay w Hdone Hbefore.
  - exists []. split; [|by simpl]. simpl in *. unfold mbind, M_bind.
    rewrite Nat.add_0_r in Hdone. by rewrite (attempt_once_completed _ _ _ _ _ _ batch_id).
  - simpl. unfold mbind, M_bind.
    destruct (attempt_once_not_completed label batch_items model a delay w)
      as (delay' & evs1 & -> & Hevs1 & Hsl1).
    { specialize (Hbefore 0%nat). rewrite Nat.add_0_r in Hbefore.
      apply Hbefore. simpl. lia. }
    destruct (IH delay' (advanced w 1 (EvSubmit label a batch_items model :: evs1)))
      as (evs & -> & Hevs & Hsl).
    + replace (submissions (advanced w 1 _) + length pre)%nat
        with (submissions w + length (a :: pre))%nat by (destruct w; simpl; lia).
      exact Hdone.
    + intros k Hk. replace (submissions (advanced w 1 _) + k)%nat
        with (submissions w + S k)%nat by (destruct w; simpl; lia).
      apply Hbefore. simpl. lia.
    + exists (EvSubmit label a batch_items model :: evs1 ++ evs). split.
      * rewrite advanced_advanced. simpl. by rewrite <- !app_assoc.
      * simpl. unfold attempts_of, sleeps in *.
        rewrite !omap_app, Hevs1, Hevs, length_app. split; [done|lia].
Qed.

(** C8. If attempt [n] is the first to poll "completed", the job
    identifier is returned at once: the trace ends with the submission of
    attempt [n], nothing is deferred, and [n] submissions were made,
    whatever the earlier attempts ran into. *)
Theorem backoff_success_short_circuit label batch_items model w (n : nat) batch_id :
  (1 <= n <= 20)%nat ->
  service C (submissions w + (n - 1)) = Polled batch_id "completed" ->
  (forall k, (k < n - 1)%nat -> completed (service C (submissions w + k)) = false) ->
  let r := submit_with_backoff C batch_items model label w in
  r.1 = inr (Some batch_id)
  /\ (exists evs,
        trace r.2 = trace w ++ evs ++ [EvSubmit label n batch_items model]
        /\ attempts_of evs = seq 1 (n - 1)
        /\ (length (sleeps evs) <= n - 1)%nat)
  /\ submissions r.2 = (submissions w + n)%nat
  /\ deferred r.2 = deferred w.
Proof.
  intros Hn Hdone Hbefore. unfold submit_with_backoff, max_retries.
  replace (seq 1 20) with (seq 1 (n - 1) ++ n :: seq (S n) (20 - n)).
  2:{ replace 20%nat with ((n - 1) + S (20 - n))%nat at 2 by lia.
      rewrite seq_app. simpl. by replace (S (n - 1)) with n by lia. }
  destruct (retry_loop_completes label batch_items model (seq 1 (n - 1)) n
              (seq (S n) (20 - n)) initial_delay w batch_id)
    as (evs & Heq & Hevs & Hsl).
  { by rewrite length_seq. }
  { by rewrite length_seq. }
  unfold mbind, M_bind. rewrite Heq. rewrite length_seq. cbn [fst snd mret M_ret].
  split; [done|]. split; [|split].
  - exists evs. split; [by destruct w|]. split; [done|].
    by rewrite length_seq in Hsl.
  - destruct w. simpl. lia.
  - by destruct w.
Qed.

End Backoff.

(** * Properties of the deferred store *)

Section Deferral.
Context {money : Type} (C : collab money).

Lemma save_failed_batch_ok batch_items label folder (w : world money) :
  write_raises C (deferred_path folder label) = false ->
  save_failed_batch C batch_items label folder w
  = (inr tt,
     set_trace (trace w ++ [EvPersist (deferred_path folder label) batch_items])
       (set_deferred (<[deferred_path folder label := batch_items]> (deferred w)) w)).
Proof.
  intros Hw. unfold save_failed_batch. rewrite Hw.
  unfold mbind, M_bind, modify, emit, modify. by destruct w.
Qed.

Lemma save_twice_deferred first second label folder (w : world money) :
  write_raises C (deferred_path folder label) = false ->
  let r := (save_failed_batch C first label folder ;;
            save_failed_batch C second label folder) w in
  r.1 = inr tt
  /\ deferred r.2 = <[deferred_path folder label := second]> (deferred w).
Proof.
  intros Hw. cbn zeta. rewrite run_bind, save_failed_batch_ok by done.
  rewrite save_failed_batch_ok by done.
  split; [done|]. destruct w. cbn. apply insert_insert_eq.
Qed.

(** C5 (amended). Two deferrals under one label go to one path, opened
    for writing each time: afterwards the file holds the items of the
    second deferral and nothing else; files of other labels keep their
    content. *)
Theorem deferral_last_write_wins first second label folder (w : world money) :
  write_raises C (deferred_path folder label) = false ->
  let r := (save_failed_batch C first label folder ;;
            save_failed_batch C second label folder) w in
  r.1 = inr tt
  /\ deferred r.2 !! deferred_path folder label = Some second
  /\ forall path, path <> deferred_path folder label ->
                  deferred r.2 !! path = deferred w !! path.
Proof.
  intros Hw. destruct (save_twice_deferred first second label folder w Hw) as [Hr Hd].
  cbn zeta. rewrite Hr, Hd. split; [done|]. split.
  - apply lookup_insert_eq.
  - intros path Hne. by apply lookup_insert_ne.
Qed.

End Deferral.

Lemma deferral_last_write_wins_witness :
  let C := scenario always_failed never_raises no_results 100 in
  let r := (save_failed_batch C [mk_item "a" 1] "filter" "data/deferred" ;;
            save_failed_batch C [mk_item "b" 2] "filter" "data/deferred") start in
  r.1 = inr tt
  /\ deferred r.2 !! deferred_path "data/deferred" "filter" = Some [mk_item "b" 2]
  /\ forall path, path <> deferred_path "data/deferred" "filter" ->
                  deferred r.2 !! path = deferred start !! path.
Proof.
  apply (deferral_last_write_wins (scenario always_failed never_raises no_results 100)).
  reflexivity.
Defined.

(** The second deferral under the label "filter" wipes out the item of the
    first one. *)
Lemma deferral_overwrites_previous :
  let C := scenario always_failed never_raises no_results 100 in
  let r := (save_failed_batch C [mk_item "a" 1] "filter" "data/deferred" ;;
            save_failed_batch C [mk_item "b" 2] "filter" "data/deferred") start in
  r.1 = inr tt /\ ~ stored r.2 (mk_item "a" 1).
Proof.
  destruct (save_twice_deferred (scenario always_failed never_raises no_results 100)
              [mk_item "a" 1] [mk_item "b" 2] "filter" "data/deferred" start eq_refl)
    as [Hr Hd].
  cbn zeta in *. split; [exact Hr|].
  intros (path & items & Hlook & Hin). rewrite Hd in Hlook.
  rewrite lookup_insert in Hlook. case_decide.
  - injection Hlook as <-. apply list_elem_of_singleton in Hin. discriminate Hin.
  - change (deferred start) with (∅ : gmap string (list item)) in Hlook.
    by rewrite lookup_empty in Hlook.
Qed.

(** * Properties of the pipeline driver *)

Section Pipeline.
Context {money : Type} (C : collab money).

(** ** Which events each part of the driver can append *)

Lemma check_budget_exactly cost : emits_exactly [EvCanProcess cost] (check_budget C cost).
Proof. intros w. unfold check_budget. rewrite !run_bind. simpl. eauto. Qed.

Section Allowed.
Variable P : event money -> Prop.
Hypothesis P_submit : forall l a b m, P (EvSubmit l a b m).
Hypothesis P_sleep : forall d, P (EvSleep d).
Hypothesis P_persist : forall p i, P (EvPersist p i).
Hypothesis P_download : forall b p, P (EvDownload b p).
Hypothesis P_log : forall s, P (EvLogError s).
Hypothesis P_db : forall o i a, P (EvDb o i a).

Lemma submit_and_poll_emits label attempt batch_items model :
  starts_with [EvSubmit label attempt batch_items model] P
    (submit_and_poll C label attempt batch_items model).
Proof.
  intros w. exists []. split; [|constructor].
  unfold submit_and_poll. rewrite !run_bind. simpl.
  destruct (service C (submissions w)); by destruct w.
Qed.

Lemma starts_with_bind {A B} pre (c : M money A) (f : A -> M money B) :
  starts_with pre P c -> (forall a, emits_only P (f a)) -> starts_with pre P (c ≫= f).
Proof.
  intros Hc Hf w. rewrite run_bind.
  destruct (Hc w) as (evs & Ht & Hevs). destruct (c w) as [[e|a] w']; simpl in *.
  - by exists evs.
  - destruct (Hf a w') as (evs' & Ht' & Hevs').
    exists (evs ++ evs'). rewrite Ht', Ht, <- !app_assoc. split; [done|].
    by apply Forall_app.
Qed.

Lemma starts_with_try_except {A} pre (c : M money A) (h : exn -> M money A) :
  starts_with pre P c -> (forall e, emits_only P (h e)) ->
  starts_with pre P (try_except c h).
Proof.
  intros Hc Hh w. rewrite run_try_except.
  destruct (Hc w) as (evs & Ht & Hevs). destruct (c w) as [[e|a] w']; simpl in *.
  - destruct (Hh e w') as (evs' & Ht' & Hevs').
    exists (evs ++ evs'). rewrite Ht', Ht, <- !app_assoc. split; [done|].
    by apply Forall_app.
  - by exists evs.
Qed.

Lemma starts_with_after {A B} pre1 pre2 (c : M money A) (f : A -> M money B) :
  emits_exactly pre1 c -> (forall a, starts_with pre2 P (f a)) ->
  starts_with (pre1 ++ pre2) P (c ≫= f).
Proof.
  intros Hc Hf w. rewrite run_bind.
  destruct (Hc w) as [(a & Ha) Ht]. destruct (c w) as [[e|a'] w']; simpl in *; [done|].
  destruct (Hf a' w') as (evs & Ht' & Hevs).
  exists evs. rewrite Ht', Ht, <- !app_assoc. by split.
Qed.

Lemma starts_with_emits {A} (c : M money A) :
  starts_with [] P c -> emits_only P c.
Proof. intros Hc w. destruct (Hc w) as (evs & Ht & Hevs). by exists evs. Qed.

Lemma attempt_once_emits label batch_items model attempt delay :
  starts_with [EvSubmit label attempt batch_items model] P
    (attempt_once C label batch_items model attempt delay).
Proof.
  unfold attempt_once, sleep. apply starts_with_try_except.
  - apply starts_with_bind; [apply submit_and_poll_emits|]. intros r. emits.
  - intros e. emits.
Qed.

Lemma emits_only_weaken {A} pre (c : M money A) :
  Forall P pre -> starts_with pre P c -> emits_only P c.
Proof.
  intros Hpre Hc w. destruct (Hc w) as (evs & Ht & Hevs).
  exists (pre ++ evs). split; [done|]. by apply Forall_app.
Qed.

Lemma retry_loop_emits label batch_items model attempts delay :
  emits_only P (retry_loop C label batch_items model attempts delay).
Proof.
  revert delay. induction attempts as [|attempt rest IH]; intros delay; simpl.
  - apply emits_only_ret.
  - apply emits_only_bind.
    + eapply emits_only_weaken; [|apply attempt_once_emits]. by constructor.
    + intros [batch_id|delay']; [apply emits_only_ret|apply IH].
Qed.

Lemma save_failed_batch_emits batch_items label folder :
  emits_only P (save_failed_batch C batch_items label folder).
Proof. unfold save_failed_batch. emits. Qed.

Lemma submit_with_backoff_starts batch_items model label :
  starts_with [EvSubmit label 1 batch_items model] P
    (submit_with_backoff C batch_items model label).
Proof.
  unfold submit_with_backoff. apply starts_with_bind.
  - change (seq 1 max_retries) with (1%nat :: seq 2 19).
    cbn [retry_loop]. apply starts_with_bind; [apply attempt_once_emits|].
    intros [batch_id|delay']; [apply emits_only_ret|apply retry_loop_emits].
  - intros [batch_id|]; [apply emits_only_ret|].
    apply emits_only_bind; [apply save_failed_batch_emits|intros; apply emits_only_ret].
Qed.

Lemma submit_with_backoff_emits batch_items model label :
  emits_only P (submit_with_backoff C batch_items model label).
Proof.
  eapply emits_only_weaken; [|apply submit_with_backoff_starts]. by constructor.
Qed.

Lemma uuid4_emits : emits_only P (uuid4 C).
Proof. unfold uuid4. emits. Qed.

Lemma download_batch_results_emits batch_id path :
  emits_only P (download_batch_results C batch_id path).
Proof. unfold download_batch_results. emits. Qed.

Lemma clean_old_batch_files_emits : emits_only P (clean_old_batch_files C).
Proof. unfold clean_old_batch_files. emits. Qed.

Lemma db_call_emits op post_id arg : emits_only P (db_call C op post_id arg).
Proof. unfold db_call. emits. Qed.

Lemma filter_result_line_emits line : emits_only P (filter_result_line C line).
Proof. unfold filter_result_line, high_ids_add. pose proof db_call_emits. emits. Qed.

Lemma get_high_potential_ids_emits :
  emits_only P (get_high_potential_ids_from_filter_results C).
Proof.
  unfold get_high_potential_ids_from_filter_results.
  pose proof filter_result_line_emits. emits.
Qed.

Lemma insight_result_line_emits line : emits_only P (insight_result_line C line).
Proof. unfold insight_result_line. pose proof db_call_emits. emits. Qed.

Lemma update_posts_with_insights_emits paths :
  emits_only P (update_posts_with_insights C paths).
Proof.
  unfold update_posts_with_insights, insight_result_file.
  pose proof insight_result_line_emits. emits.
Qed.

Section WithCommit.
Hypothesis P_add : forall b m, P (EvAddCost b m).

Lemma add_estimated_batch_cost_emits batch model :
  emits_only P (add_estimated_batch_cost batch model).
Proof. unfold add_estimated_batch_cost. emits. Qed.

Lemma filter_sub_batch_emits batch : emits_only P (filter_sub_batch C batch).
Proof.
  unfold filter_sub_batch.
  pose proof add_estimated_batch_cost_emits. pose proof submit_with_backoff_emits.
  pose proof uuid4_emits. pose proof download_batch_results_emits. emits.
Qed.

Lemma insight_sub_batch_emits paths batch :
  emits_only P (insight_sub_batch C paths batch).
Proof.
  unfold insight_sub_batch.
  pose proof add_estimated_batch_cost_emits. pose proof submit_with_backoff_emits.
  pose proof uuid4_emits. pose proof download_batch_results_emits. emits.
Qed.

Lemma insight_sub_batches_emits paths batches :
  emits_only P (insight_sub_batches C paths batches).
Proof.
  revert paths. induction batches as [|batch rest IH]; intros paths; simpl.
  - apply emits_only_ret.
  - apply emits_only_bind; [apply insight_sub_batch_emits|intros; apply IH].
Qed.

Lemma emits_starts {A} (c : M money A) : emits_only P c -> starts_with [] P c.
Proof. intros Hc w. destruct (Hc w) as (evs & Ht & Hevs). by exists evs. Qed.

Lemma insight_stage_starts deep_posts :
  starts_with
    [EvCanProcess (estimate_insight_cost C (prepare_insight_batch C deep_posts))] P
    (insight_stage C deep_posts).
Proof.
  unfold insight_stage. rewrite <- (app_nil_r [EvCanProcess _]).
  apply starts_with_after; [apply check_budget_exactly|].
  intros ok. apply emits_starts.
  pose proof insight_sub_batches_emits. pose proof update_posts_with_insights_emits.
  emits.
Qed.

Section WithGate.
Hypothesis P_gate : forall c, P (EvCanProcess c).

Lemma filter_stage_starts posts :
  starts_with [EvCanProcess (estimate_filter_cost C posts)] P (filter_stage C posts).
Proof.
  unfold filter_stage. rewrite <- (app_nil_r [EvCanProcess _]).
  apply starts_with_after; [apply check_budget_exactly|].
  intros ok. apply emits_starts.
  pose proof filter_sub_batch_emits. pose proof get_high_potential_ids_emits.
  assert (forall deep_posts, emits_only P (insight_stage C deep_posts)).
  { intros deep_posts. eapply emits_only_weaken; [|apply insight_stage_starts].
    by constructor. }
  emits.
Qed.

End WithGate.

End WithCommit.

End Allowed.

(** ** Budget checks *)

Lemma gate_checks_app (t1 t2 : list (event money)) :
  gate_checks (t1 ++ t2) = gate_checks t1 ++ gate_checks t2.
Proof. apply omap_app. Qed.

Lemma gate_checks_none (evs : list (event money)) :
  Forall not_gate evs -> gate_checks evs = [].
Proof.
  induction 1 as [|ev evs Hev _ IH]; [done|].
  destruct ev; simpl; try exact IH. by destruct Hev.
Qed.

Lemma gates_at_most_emits {A} (c : M money A) :
  emits_only not_gate c -> gates_at_most 0 c.
Proof.
  intros Hc w. destruct (Hc w) as (evs & -> & Hevs). exists [].
  rewrite gate_checks_app, (gate_checks_none evs Hevs). split; [done|simpl; lia].
Qed.

Lemma gates_at_most_le {A} (n m : nat) (c : M money A) :
  (n <= m)%nat -> gates_at_most n c -> gates_at_most m c.
Proof.
  intros Hle Hc w. destruct (Hc w) as (costs & Ht & Hlen). exists costs.
  split; [done|lia].
Qed.

Lemma gates_at_most_bind {A B} (n m : nat) (c : M money A) (f : A -> M money B) :
  gates_at_most n c -> (forall a, gates_at_most m (f a)) ->
  gates_at_most (n + m) (c ≫= f).
Proof.
  intros Hc Hf w. rewrite run_bind.
  destruct (Hc w) as (costs & Ht & Hlen). destruct (c w) as [[e|a] w']; simpl in *.
  - exists costs. split; [done|lia].
  - destruct (Hf a w') as (costs' & Ht' & Hlen'). exists (costs ++ costs').
    rewrite Ht', Ht, <- app_assoc, length_app. split; [done|lia].
Qed.

Lemma check_budget_gates cost : gates_at_most 1 (check_budget C cost).
Proof.
  intros w. exists [cost]. split; [|done].
  unfold check_budget. rewrite !run_bind. simpl. by rewrite gate_checks_app.
Qed.

Lemma insight_stage_gates deep_posts : gates_at_most 1 (insight_stage C deep_posts).
Proof.
  unfold insight_stage. apply (gates_at_most_bind 1 0); [apply check_budget_gates|].
  intros ok. apply gates_at_most_emits. destruct (negb ok); [apply emits_only_ret|].
  apply emits_only_bind.
  - apply insight_sub_batches_emits; allowed.
  - intros paths. apply update_posts_with_insights_emits; allowed.
Qed.

Lemma filter_stage_gates posts : gates_at_most 2 (filter_stage C posts).
Proof.
  unfold filter_stage. apply (gates_at_most_bind 1 1); [apply check_budget_gates|].
  intros ok. destruct (negb ok).
  { apply (gates_at_most_le 0); [lia|]. apply gates_at_most_emits, emits_only_ret. }
  apply (gates_at_most_bind 0 1).
  { apply gates_at_most_emits, emits_only_for_each. intros batch.
    apply filter_sub_batch_emits; allowed. }
  intros _. apply (gates_at_most_bind 0 1).
  { apply gates_at_most_emits, get_high_potential_ids_emits; allowed. }
  intros [|id ids].
  { apply (gates_at_most_le 0); [lia|]. apply gates_at_most_emits, emits_only_ret. }
  destruct (get_posts_by_ids C (id :: ids)).
  { apply (gates_at_most_le 0); [lia|]. apply gates_at_most_emits, emits_only_ret. }
  apply insight_stage_gates.
Qed.

Lemma run_daily_pipeline_gates : gates_at_most 2 (run_daily_pipeline C).
Proof.
  unfold run_daily_pipeline. apply (gates_at_most_bind 0 2).
  { apply gates_at_most_emits, clean_old_batch_files_emits. allowed. }
  intros _. destruct (scrape_all_configured_subreddits C).
  { apply (gates_at_most_le 0); [lia|]. apply gates_at_most_emits, emits_only_ret. }
  destruct (List.filter _ _).
  { apply (gates_at_most_le 0); [lia|]. apply gates_at_most_emits, emits_only_ret. }
  apply filter_stage_gates.
Qed.

(** C2 (amended). can_process_batch is called once per stage, as the
    first step of the stage, on the estimated cost of the whole stage and
    before the stage's batch is split; the loops over the sub-batches never
    call it, so a run makes at most two checks however many sub-batches it
    submits. *)
Theorem budget_checked_once_per_stage :
  (forall batches, emits_only not_gate (for_each batches (filter_sub_batch C)))
  /\ (forall paths batches, emits_only not_gate (insight_sub_batches C paths batches))
  /\ (forall posts,
        starts_with [EvCanProcess (estimate_filter_cost C posts)] (fun _ => True)
          (filter_stage C posts))
  /\ (forall deep_posts,
        starts_with
          [EvCanProcess (estimate_insight_cost C (prepare_insight_batch C deep_posts))]
          not_gate (insight_stage C deep_posts))
  /\ gates_at_most 2 (run_daily_pipeline C).
Proof.
  split; [|split; [|split; [|split]]].
  - intros batches. apply emits_only_for_each. intros batch.
    apply filter_sub_batch_emits; allowed.
  - intros paths batches. apply insight_sub_batches_emits; allowed.
  - intros posts. by apply filter_stage_starts.
  - intros deep_posts. apply insight_stage_starts; allowed.
  - apply run_daily_pipeline_gates.
Qed.

(** ** Ledger commits *)

Lemma add_estimated_batch_cost_exactly batch model :
  emits_exactly (money:=money) [EvAddCost batch model]
    (add_estimated_batch_cost batch model).
Proof. intros w. unfold add_estimated_batch_cost. rewrite !run_bind. simpl. eauto. Qed.

(** C4 (amended). The ledger commit of a sub-batch is made once, right
    before the first submission attempt of that sub-batch, in both loops;
    nothing that follows in the iteration commits again. *)
Theorem ledger_commit_precedes_submission (batch : list item) :
  starts_with [EvAddCost batch (model_filter C);
               EvSubmit "filter" 1 batch (model_filter C)] not_commit
    (filter_sub_batch C batch)
  /\ forall paths,
       starts_with [EvAddCost batch (model_deep C);
                    EvSubmit "insight" 1 batch (model_deep C)] not_commit
         (insight_sub_batch C paths batch).
Proof.
  split; [|intros paths].
  - unfold filter_sub_batch.
    apply (starts_with_after _ [_] [_]); [apply add_estimated_batch_cost_exactly|].
    intros _. apply starts_with_bind.
    + apply submit_with_backoff_starts; allowed.
    + intros batch_id. destruct (no_batch_id batch_id); [apply emits_only_ret|].
      apply emits_only_bind; [apply uuid4_emits|intros hex].
      apply download_batch_results_emits; allowed.
  - unfold insight_sub_batch.
    apply (starts_with_after _ [_] [_]); [apply add_estimated_batch_cost_exactly|].
    intros _. apply starts_with_bind.
    + apply submit_with_backoff_starts; allowed.
    + intros batch_id. destruct (no_batch_id batch_id); [apply emits_only_ret|].
      apply emits_only_bind; [apply uuid4_emits|intros hex].
      apply emits_only_bind; [|intros; apply emits_only_ret].
      apply download_batch_results_emits; allowed.
Qed.

(** ** Exceptions *)

Lemma attempt_once_safe label batch_items model attempt delay :
  safe (attempt_once C label batch_items model attempt delay).
Proof. unfold attempt_once, sleep. safety. Qed.

Lemma retry_loop_safe label batch_items model attempts delay :
  safe (retry_loop C label batch_items model attempts delay).
Proof.
  revert delay. induction attempts as [|attempt rest IH]; intros delay; simpl.
  - apply safe_ret.
  - apply safe_bind; [apply attempt_once_safe|].
    intros [batch_id|delay']; [apply safe_ret|apply IH].
Qed.

Lemma clean_old_batch_files_safe : safe (clean_old_batch_files C).
Proof. unfold clean_old_batch_files. safety. Qed.

Lemma filter_result_line_safe line : safe (filter_result_line C line).
Proof. unfold filter_result_line. safety. Qed.




Lemma add_estimated_batch_cost_safe batch model :
  safe (money:=money) (add_estimated_batch_cost batch model).
Proof. unfold add_estimated_batch_cost. safety. Qed.

Lemma uuid4_safe : safe (uuid4 C).
Proof. unfold uuid4. safety. Qed.

Section NoStorageFault.
Hypothesis writes_ok : forall path, write_raises C path = false.
Hypothesis downloads_ok : forall batch_id, is_Some (results_of C batch_id).

Lemma save_failed_batch_safe batch_items label folder :
  safe (save_failed_batch C batch_items label folder).
Proof. unfold save_failed_batch. rewrite writes_ok. safety. Qed.

Lemma submit_with_backoff_safe batch_items model label :
  safe (submit_with_backoff C batch_items model label).
Proof.
  unfold submit_with_backoff. apply safe_bind; [apply retry_loop_safe|].
  intros [batch_id|]; [apply safe_ret|].
  apply safe_bind; [apply save_failed_batch_safe|intros; apply safe_ret].
Qed.

Lemma download_batch_results_safe batch_id path :
  safe (download_batch_results C batch_id path).
Proof.
  unfold download_batch_results. destruct (downloads_ok batch_id) as [lines ->].
  safety.
Qed.

Lemma filter_sub_batch_safe batch : safe (filter_sub_batch C batch).
Proof.
  unfold filter_sub_batch.
  pose proof add_estimated_batch_cost_safe. pose proof submit_with_backoff_safe.
  pose proof uuid4_safe. pose proof download_batch_results_safe. safety.
Qed.






End NoStorageFault.

End Pipeline.

Lemma backoff_exhausted_witness :
  let C := scenario always_failed never_raises no_results 100 in
  let r := submit_with_backoff C [mk_item "a" 1] "m" "filter" start in
  r.1 = inr None
  /\ (exists evs,
        trace r.2 = trace start ++ evs
                      ++ [EvPersist (deferred_path "data/deferred" "filter") [mk_item "a" 1]]
        /\ attempts_of evs = seq 1 20
        /\ sleeps evs = [10; 20; 40; 80; 160; 320; 640; 1280; 2560; 3600;
                         3600; 3600; 3600; 3600; 3600; 3600; 3600; 3600; 3600; 3600]
        /\ last evs = Some (EvSleep 3600))
  /\ deferred r.2 !! deferred_path "data/deferred" "filter" = Some [mk_item "a" 1].
Proof.
  apply (backoff_exhausted (scenario always_failed never_raises no_results 100)).
  - intros k _. reflexivity.
  - reflexivity.
Defined.

(** With a submitter that always reports "failed" the code sleeps twenty
    times, not nineteen: the twentieth attempt is followed by a sleep too. *)
Lemma backoff_sleeps_after_final_attempt :
  let C := scenario always_failed never_raises no_results 100 in
  let r := submit_with_backoff C [mk_item "a" 1] "m" "filter" start in
  length (sleeps (trace r.2)) <> 19%nat
  /\ exists pre,
       trace r.2 = pre ++ [EvSubmit "filter" 20 [mk_item "a" 1] "m"; EvSleep 3600;
                           EvPersist (deferred_path "data/deferred" "filter") [mk_item "a" 1]].
Proof.
  split.
  - vm_compute. discriminate.
  - eexists. vm_compute. 
    match goal with |- ?l = _ => 
      rewrite <- (firstn_skipn 38 l) at 1 end.
    reflexivity.
Qed.

Lemma backoff_success_short_circuit_witness :
  let C := scenario third_completes never_raises no_results 100 in
  let r := submit_with_backoff C [mk_item "a" 1] "m" "filter" start in
  r.1 = inr (Some "batch_3")
  /\ (exists evs,
        trace r.2 = trace start ++ evs ++ [EvSubmit "filter" 3 [mk_item "a" 1] "m"]
        /\ attempts_of evs = seq 1 (3 - 1)
        /\ (length (sleeps evs) <= 3 - 1)%nat)
  /\ submissions r.2 = (submissions start + 3)%nat
  /\ deferred r.2 = deferred start.
Proof.
  apply (backoff_success_short_circuit
           (scenario third_completes never_raises no_results 100)).
  - lia.
  - reflexivity.
  - intros k Hk. destruct k as [|[|k]]; [reflexivity..|simpl in Hk; lia].
Defined.

(** The filter stage of this run has two sub-batches and one budget check,
    made before the first of them: the second sub-batch is submitted with no
    check of its own. *)
Lemma second_sub_batch_not_gated :
  let C := scenario all_completed never_raises no_results 150000 in
  let r := run_daily_pipeline C start in
  r.1 = inr tt
  /\ sub_batches_started (trace r.2) = [[mk_item "p1" 150000]; [mk_item "p2" 150000]]
  /\ gate_checks (trace r.2) = [2]
  /\ gated_per_sub_batch false (trace r.2) = false.
Proof. vm_compute. repeat split. Qed.

(** The first sub-batch is charged to the ledger before any submission
    has been attempted. *)
Lemma commit_before_first_submission :
  let C := scenario all_completed never_raises no_results 150000 in
  let r := run_daily_pipeline C start in
  take 3 (trace r.2)
  = [EvCanProcess 2;
     EvAddCost [mk_item "p1" 150000] "model-filter";
     EvSubmit "filter" 1 [mk_item "p1" 150000] "model-filter"]
  /\ commits_follow_submissions [] (trace r.2) = false.
Proof. vm_compute. repeat split. Qed.



(** * Result ingestion *)

Section Ingestion.
Context {money : Type} (C : collab money).

(** A line of a filter result file that does not decode is logged, and
    nothing else changes. *)
Lemma filter_result_line_undecodable line (w : world money) :
  json_loads C line = None ->
  filter_result_line C line w = (inr tt, set_trace (trace w ++ [EvLogError FilterLine]) w).
Proof.
  intros Hbad. unfold filter_result_line. rewrite run_try_except, run_bind, Hbad.
  reflexivity.
Qed.

(** The lines of a filter result file are handled one after the other,
    whatever happens on each of them. *)
Lemma filter_result_lines_app lines1 lines2 (w : world money) :
  for_each (lines1 ++ lines2) (filter_result_line C) w
  = for_each lines2 (filter_result_line C)
      (for_each lines1 (filter_result_line C) w).2.
Proof.
  revert w. induction lines1 as [|line lines1 IH]; intros w; [done|].
  simpl. rewrite !run_bind.
  destruct (filter_result_line_safe C line w) as ([] & Hline).
  destruct (filter_result_line C line w) as [[e|[]] w']; [done|]. apply IH.
Qed.

End Ingestion.

(** The filter path skips the undecodable line and goes on. *)
Example filter_bad_line_skipped :
  let C := scenario all_completed never_raises no_results 100 in
  let r := get_high_potential_ids_from_filter_results C (set_responses filter_files start) in
  r.1 = inr [JStr "p1"; JStr "p1"]
  /\ trace r.2 = [EvDb UpdateFilterScores (JStr "p1") (Some (scores_json 9 8 7));
                  EvLogError FilterLine;
                  EvDb UpdateFilterScores (JStr "p1") (Some (scores_json 9 8 7))].
Proof. vm_compute. repeat split. Qed.

(** C3. On the insight path an undecodable first line ends the ingestion of
    its file and of every file after it: the two valid lines that follow
    are never applied, only the read error is logged. *)
Theorem insight_bad_line_aborts_ingestion :
  let C := scenario all_completed never_raises no_results 100 in
  let r := update_posts_with_insights C [insight_path_a; insight_path_b]
             (set_responses (insight_files "oops") start) in
  r.1 = inr tt /\ trace r.2 = [EvLogError InsightRead].
Proof. vm_compute. repeat split. Qed.

(** Without the bad line both files are applied in full. *)
Example insight_valid_lines_applied :
  let C := scenario all_completed never_raises no_results 100 in
  let r := update_posts_with_insights C [insight_path_a; insight_path_b]
             (set_responses (insight_files (result_line "p2" "[3]")) start) in
  r.1 = inr tt
  /\ trace r.2 = [EvDb UpdateInsight (JStr "p2") (Some (JArr [JNum 3]));
                  EvDb MarkInsightProcessed (JStr "p2") None;
                  EvDb UpdateInsight (JStr "p1") (Some (JArr [JNum 1; JNum 2]));
                  EvDb MarkInsightProcessed (JStr "p1") None;
                  EvDb UpdateInsight (JStr "p2") (Some (JArr [JNum 3]));
                  EvDb MarkInsightProcessed (JStr "p2") None].
Proof. vm_compute. repeat split. Qed.


(** * Further properties of the splitter *)

Module Packing.
Import Splitter.

Lemma packed_snoc (token_limit : Z) (l : list (list item)) (b : list item) :
  packed token_limit (l ++ [b])
  <-> packed token_limit l /\ overflows token_limit l b.
Proof.
  induction l as [|a l IH]; simpl.
  - unfold overflows. simpl. tauto.
  - rewrite IH. unfold overflows. destruct l as [|c l]; simpl.
    + destruct b; tauto.
    + destruct c; tauto.
Qed.

Lemma packed_lookup (token_limit : Z) (l : list (list item)) :
  packed token_limit l ->
  forall (i : nat) b x rest,
    l !! i = Some b -> l !! S i = Some (x :: rest) ->
    token_limit < sum_tokens b + item_tokens x.
Proof.
  induction l as [|a l IH]; intros Hp i b x rest Hb Hx; [done|].
  destruct Hp as [Hhead Htail]. destruct i as [|i]; simpl in *.
  - injection Hb as ->. destruct l as [|c l]; [done|]. simpl in Hx.
    injection Hx as ->. exact Hhead.
  - by eapply IH.
Qed.

Lemma packed_init (token_limit : Z) : packed_inv token_limit init.
Proof. split; simpl; tauto. Qed.

Lemma packed_step (token_limit : Z) (st : state) (it : item) :
  packed_inv token_limit st -> packed_inv token_limit (step token_limit st it).
Proof.
  intros [Hsum Hp Hfirst]. unfold step, flush.
  destruct (Z.gtb_spec (current_tokens st + item_tokens it) token_limit) as [Hgt|Hle];
    simpl.
  - split; simpl.
    + lia.
    + apply packed_snoc. split; [exact Hp|].
      unfold overflows. rewrite last_snoc. simpl. lia.
    + done.
  - split; simpl.
    + rewrite SplitterFacts.sum_tokens_snoc. lia.
    + apply packed_snoc in Hp as [Hb Ho]. apply packed_snoc. split; [exact Hb|].
      destruct (current_batch st) as [|x c]; [|exact Ho].
      rewrite Hfirst by done. unfold overflows. done.
    + intros H. by apply app_eq_nil in H as [_ H].
Qed.

Lemma packed_loop (token_limit : Z) (payload : list item) (st : state) :
  packed_inv token_limit st -> packed_inv token_limit (loop token_limit payload st).
Proof.
  unfold loop. revert st. induction payload as [|it payload IH]; intros st Hinv; [done|].
  simpl. apply IH. by apply packed_step.
Qed.

Lemma packed_finish (token_limit : Z) (st : state) :
  packed_inv token_limit st -> packed token_limit (finish st).
Proof.
  intros [_ Hp Hfirst]. unfold finish.
  destruct (current_batch st) as [|x c]; [|exact Hp].
  by rewrite Hfirst.
Qed.

(** While the payload fits, the loop only grows the running batch. *)
Lemma loop_no_flush (token_limit : Z) (payload : list item) (st : state) :
  nonneg_estimates payload ->
  current_tokens st + sum_tokens payload <= token_limit ->
  loop token_limit payload st
  = State (batches st) (current_batch st ++ payload)
          (current_tokens st + sum_tokens payload).
Proof.
  unfold loop. intros Hnn. revert st.
  induction Hnn as [|it payload Hit Hnn IH]; intros st Hfit; simpl in *.
  - destruct st. simpl. by rewrite app_nil_r, Z.add_0_r.
  - pose proof (TokenBound.sum_tokens_nonneg _ Hnn) as Hrest.
    rewrite IH.
    + unfold step, flush.
      destruct (Z.gtb_spec (current_tokens st + item_tokens it) token_limit); [lia|].
      simpl. by rewrite <- app_assoc, Z.add_assoc.
    + unfold step, flush.
      destruct (Z.gtb_spec (current_tokens st + item_tokens it) token_limit); [lia|].
      simpl. lia.
Qed.

End Packing.

(** X1. The split is greedy: whenever a sub-batch is followed by another
    one, the first item of the follower would have pushed the sum of the
    earlier sub-batch above the limit. *)
Theorem split_is_greedy (payload : list item) (model : string) (token_limit : Z) :
  forall (i : nat) b x rest,
    split_batch_by_token_limit payload model token_limit !! i = Some b ->
    split_batch_by_token_limit payload model token_limit !! S i = Some (x :: rest) ->
    token_limit < sum_tokens b + item_tokens x.
Proof.
  apply Packing.packed_lookup, Packing.packed_finish, Packing.packed_loop,
    Packing.packed_init.
Qed.

Lemma split_is_greedy_witness :
  default_token_limit < sum_tokens [mk_item "a" 150000] + item_tokens (mk_item "b" 100000).
Proof.
  exact (split_is_greedy
           [mk_item "a" 150000; mk_item "b" 100000; mk_item "c" 50000] "m"
           default_token_limit 0 [mk_item "a" 150000] (mk_item "b" 100000)
           [mk_item "c" 50000] eq_refl eq_refl).
Defined.

(** X2. A payload with estimates that are not negative and that fits under
    the limit as a whole comes back as one sub-batch, the payload itself. *)
Theorem split_fits_in_one (payload : list item) (model : string) (token_limit : Z) :
  payload <> [] ->
  nonneg_estimates payload ->
  sum_tokens payload <= token_limit ->
  split_batch_by_token_limit payload model token_limit = [payload].
Proof.
  intros Hne Hnn Hfit. unfold split_batch_by_token_limit.
  rewrite Packing.loop_no_flush by (simpl; done || lia).
  unfold Splitter.finish. simpl. by destruct payload.
Qed.

Lemma split_fits_in_one_witness :
  split_batch_by_token_limit [mk_item "a" 1; mk_item "b" 2] "m" default_token_limit
  = [[mk_item "a" 1; mk_item "b" 2]].
Proof.
  apply split_fits_in_one.
  - discriminate.
  - unfold nonneg_estimates.
    repeat (apply Forall_cons; split; [unfold item_tokens; simpl; lia|]).
    by apply Forall_nil.
  - unfold default_token_limit, sum_tokens, item_tokens. simpl. lia.
Defined.

(** * Further properties of the backoff submitter *)

Lemma next_delay_capped (k : nat) : next_delay (capped_delay k) = capped_delay (S k).
Proof.
  unfold next_delay, capped_delay, max_delay.
  rewrite Nat2Z.inj_succ, Z.pow_succ_r by lia.
  pose proof (Z.pow_pos_nonneg 2 (Z.of_nat k)) as Hpos.
  destruct (Z.gtb_spec (Z.min (10 * 2 ^ Z.of_nat k) 3600 * 2) 3600); lia.
Qed.

Lemma delays_capped (n k : nat) : delays n (capped_delay k) = capped_delay <$> seq k n.
Proof.
  revert k. induction n as [|n IH]; intros k; [done|].
  simpl. by rewrite next_delay_capped, IH.
Qed.

Section BackoffMore.
Context {money : Type} (C : collab money).

Lemma attempt_once_cases label batch_items model attempt delay (w : world money) :
  exists r evs,
    attempt_once C label batch_items model attempt delay w
    = (inr r, advanced w 1 (EvSubmit label attempt batch_items model :: evs))
    /\ attempt_result delay r evs.
Proof.
  unfold attempt_once, try_except, submit_and_poll.
  unfold mbind, M_bind, gets, modify, emit, sleep, mret, M_ret, raise. simpl.
  destruct (service C (submissions w)) as [|batch_id status]; simpl.
  - exists (Continue (next_delay delay)), [EvSleep delay]. split.
    + unfold emit, modify. destruct w. unfold advanced. simpl.
      by rewrite <- app_assoc, Nat.add_1_r.
    + right. by left.
  - destruct (String.eqb status "completed"); [|destruct (String.eqb status "cancelled");
      [|destruct (String.eqb status "failed")]]; simpl.
    + exists (Return batch_id), []. split.
      * destruct w. unfold advanced. simpl. by rewrite Nat.add_1_r.
      * left. by exists batch_id.
    + exists (Continue (next_delay delay)), [EvSleep delay]. split.
      * destruct w. unfold advanced. simpl. by rewrite <- app_assoc, Nat.add_1_r.
      * right. by left.
    + exists (Continue (next_delay delay)), [EvSleep delay]. split.
      * destruct w. unfold advanced. simpl. by rewrite <- app_assoc, Nat.add_1_r.
      * right. by left.
    + exists (Continue delay), []. split.
      * destruct w. unfold advanced. simpl. by rewrite Nat.add_1_r.
      * right. by right.
Qed.

(** The retry loop, whatever the service answers: the attempts made are a
    prefix of the attempts planned, and the sleeps follow the schedule from
    the delay the loop was entered with. *)
Lemma retry_loop_schedule label batch_items model attempts (j : nat) (w : world money) :
  exists r evs (m n : nat),
    retry_loop C label batch_items model attempts (capped_delay j) w
    = (inr r, advanced w m evs)
    /\ attempts_of evs = take m attempts
    /\ (m <= length attempts)%nat
    /\ (attempts <> [] -> (1 <= m)%nat)
    /\ sleeps evs = capped_delay <$> seq j n
    /\ (n <= m)%nat.
Proof.
  revert j w. induction attempts as [|attempt rest IH]; intros j w.
  - exists None, [], 0%nat, 0%nat. simpl. rewrite advanced_0. by repeat split.
  - simpl. rewrite run_bind.
    destruct (attempt_once_cases label batch_items model attempt (capped_delay j) w)
      as (r & evs1 & -> & [(batch_id & -> & ->)|[[-> ->]|[-> ->]]]).
    + exists (Some batch_id), [EvSubmit label attempt batch_items model], 1%nat, 0%nat.
      simpl. repeat split; try done; lia.
    + rewrite next_delay_capped.
      destruct (IH (S j) (advanced w 1
                  [EvSubmit label attempt batch_items model; EvSleep (capped_delay j)]))
        as (r & evs & m & n & -> & Hatt & Hm & _ & Hsl & Hn).
      exists r, ([EvSubmit label attempt batch_items model; EvSleep (capped_delay j)] ++ evs),
        (S m), (S n).
      rewrite advanced_advanced. unfold attempts_of, sleeps in *.
      rewrite !omap_app, Hatt, Hsl. simpl. repeat split; try done; lia.
    + destruct (IH j (advanced w 1 [EvSubmit label attempt batch_items model]))
        as (r & evs & m & n & -> & Hatt & Hm & _ & Hsl & Hn).
      exists r, ([EvSubmit label attempt batch_items model] ++ evs), (S m), n.
      rewrite advanced_advanced. unfold attempts_of, sleeps in *.
      rewrite !omap_app, Hatt, Hsl. simpl. repeat split; try done; lia.
Qed.

(** X3. Whatever the service answers, one call of submit_with_backoff
    makes the attempts 1, 2, ..., m for some m between 1 and 20, and its
    sleeps are the first n terms of min(10 * 2^k, 3600) for some n at most
    m: exceptions and the statuses cancelled and failed share one delay
    counter. *)
Theorem backoff_schedule label batch_items model (w : world money) :
  let r := submit_with_backoff C batch_items model label w in
  exists evs (m n : nat),
    trace r.2 = trace w ++ evs
    /\ attempts_of evs = seq 1 m
    /\ (1 <= m <= 20)%nat
    /\ sleeps evs = capped_delay <$> seq 0 n
    /\ (n <= m)%nat.
Proof.
  cbn zeta. unfold submit_with_backoff. rewrite run_bind.
  change initial_delay with (capped_delay 0).
  destruct (retry_loop_schedule label batch_items model (seq 1 max_retries) 0 w)
    as (r & evs & m & n & -> & Hatt & Hm & Hm1 & Hsl & Hn).
  rewrite length_seq in Hm. unfold max_retries in *.
  rewrite take_seq in Hatt. replace (m `min` 20)%nat with m in Hatt by lia.
  assert (1 <= m)%nat as Hone by (apply Hm1; discriminate).
  destruct r as [batch_id|].
  - exists evs, m, n. repeat split; first [done | lia | by destruct w].
  - rewrite run_bind. unfold save_failed_batch.
    destruct (write_raises C _).
    + exists evs, m, n. repeat split; first [done | lia | by destruct w].
    + exists (evs ++ [EvPersist (deferred_path "data/deferred" label) batch_items]), m, n.
      unfold attempts_of, sleeps in *. rewrite !omap_app, Hatt, Hsl. simpl.
      rewrite !app_nil_r.
      repeat split; first [done | lia | destruct w; cbn; by rewrite <- app_assoc].
Qed.



(** X5. A polled status other than completed, cancelled and failed is
    answered with the next attempt at once: when all twenty attempts poll
    such a status, the call submits twenty times without a single sleep
    and then defers the items. *)
Theorem backoff_unknown_status_no_sleep label batch_items model (w : world money) :
  (forall k, (k < 20)%nat -> unknown_status (service C (submissions w + k)) = true) ->
  write_raises C (deferred_path "data/deferred" label) = false ->
  let r := submit_with_backoff C batch_items model label w in
  r.1 = inr None
  /\ trace r.2
     = trace w ++ ((fun a => EvSubmit label a batch_items model) <$> seq 1 20)
         ++ [EvPersist (deferred_path "data/deferred" label) batch_items].
Proof.
  intros Hunk Hw. cbn zeta. unfold submit_with_backoff. rewrite run_bind.
  assert (forall attempts delay (w' : world money),
            (forall k, (k < length attempts)%nat ->
                       unknown_status (service C (submissions w' + k)) = true) ->
            retry_loop C label batch_items model attempts delay w'
            = (inr None,
               advanced w' (length attempts)
                 ((fun a => EvSubmit label a batch_items model) <$> attempts))) as Hloop.
  { induction attempts as [|a rest IH]; intros delay w' Hall.
    - simpl. by rewrite advanced_0.
    - simpl. rewrite run_bind.
      assert (attempt_once C label batch_items model a delay w'
              = (inr (Continue delay),
                 advanced w' 1 [EvSubmit label a batch_items model])) as ->.
      { specialize (Hall 0%nat). rewrite Nat.add_0_r in Hall.
        specialize (Hall ltac:(simpl; lia)).
        unfold attempt_once, try_except, submit_and_poll.
        unfold mbind, M_bind, gets, modify, emit, sleep, mret, M_ret, raise. simpl.
        destruct (service C (submissions w')) as [|batch_id status]; [done|].
        simpl in *.
        destruct (String.eqb status "completed"); [done|].
        destruct (String.eqb status "cancelled"); [done|].
        destruct (String.eqb status "failed"); [done|].
        simpl. destruct w'. unfold advanced. simpl. by rewrite Nat.add_1_r. }
      rewrite IH.
      + by rewrite advanced_advanced.
      + intros k Hk. replace (submissions (advanced w' 1 _) + k)%nat
          with (submissions w' + S k)%nat by (destruct w'; simpl; lia).
        apply Hall. simpl. lia. }
  rewrite Hloop by (rewrite length_seq; exact Hunk).
  rewrite run_bind, save_failed_batch_ok by done.
  split; [done|]. destruct w. cbn. by rewrite <- app_assoc.
Qed.

End BackoffMore.


Lemma backoff_unknown_status_no_sleep_witness :
  let C := scenario always_expired never_raises no_results 100 in
  let r := submit_with_backoff C [mk_item "a" 1] "m" "filter" start in
  r.1 = inr None
  /\ trace r.2
     = trace start ++ ((fun a => EvSubmit "filter" a [mk_item "a" 1] "m") <$> seq 1 20)
         ++ [EvPersist (deferred_path "data/deferred" "filter") [mk_item "a" 1]].
Proof.
  apply (backoff_unknown_status_no_sleep
           (scenario always_expired never_raises no_results 100)).
  - intros k _. reflexivity.
  - reflexivity.
Defined.

(** * Further properties of the deferred store *)

Lemma string_length_app (a b : string) :
  String.length (a +:+ b) = (String.length a + String.length b)%nat.
Proof. induction a as [|c a IH]; simpl; [done|]. by rewrite IH. Qed.

Lemma string_app_inv_tail (a b t : string) : a +:+ t = b +:+ t -> a = b.
Proof.
  revert b. induction a as [|c a IH]; intros [|d b] H; simpl in *.
  - done.
  - apply (f_equal String.length) in H. rewrite !string_length_app in H. simpl in H.
    rewrite ?string_length_app in H. lia.
  - apply (f_equal String.length) in H. rewrite !string_length_app in H. simpl in H.
    rewrite ?string_length_app in H. lia.
  - injection H as -> H. f_equal. by apply IH.
Qed.

Lemma deferred_path_inj (folder label1 label2 : string) :
  deferred_path folder label1 = deferred_path folder label2 -> label1 = label2.
Proof.
  unfold deferred_path. intros H.
  do 3 apply String.app_inj in H. by apply string_app_inv_tail in H.
Qed.

Section DeferralMore.
Context {money : Type} (C : collab money).

(** X6. Deferrals under different labels go to different files: after a
    deferral under one label and one under another, each file holds the
    items of its own label. *)
Theorem deferrals_of_distinct_labels first second label1 label2 folder
    (w : world money) :
  label1 <> label2 ->
  write_raises C (deferred_path folder label1) = false ->
  write_raises C (deferred_path folder label2) = false ->
  let r := (save_failed_batch C first label1 folder ;;
            save_failed_batch C second label2 folder) w in
  r.1 = inr tt
  /\ deferred r.2 !! deferred_path folder label1 = Some first
  /\ deferred r.2 !! deferred_path folder label2 = Some second.
Proof.
  intros Hne Hw1 Hw2. cbn zeta.
  rewrite run_bind, save_failed_batch_ok by done.
  rewrite save_failed_batch_ok by done.
  split; [done|]. destruct w. cbn. split.
  - rewrite lookup_insert_ne, lookup_insert_eq; [done|].
    intros Heq. by apply deferred_path_inj in Heq.
  - apply lookup_insert_eq.
Qed.

End DeferralMore.

Lemma deferrals_of_distinct_labels_witness :
  let C := scenario always_failed never_raises no_results 100 in
  let r := (save_failed_batch C [mk_item "a" 1] "filter" "data/deferred" ;;
            save_failed_batch C [mk_item "b" 2] "insight" "data/deferred") start in
  r.1 = inr tt
  /\ deferred r.2 !! deferred_path "data/deferred" "filter" = Some [mk_item "a" 1]
  /\ deferred r.2 !! deferred_path "data/deferred" "insight" = Some [mk_item "b" 2].
Proof.
  apply (deferrals_of_distinct_labels
           (scenario always_failed never_raises no_results 100)).
  - discriminate.
  - reflexivity.
  - reflexivity.
Defined.

(** * Properties of clean_old_batch_files *)

(** Peels equal contexts off an equation until two filtered lists remain. *)
Ltac to_filters :=
  repeat match goal with
         | |- List.filter _ _ = List.filter _ _ => fail 1
         | |- _ = _ => progress f_equal
         end.

Section Cleaning.
Context {money : Type} (C : collab money).

Lemma filter_remove_file (g : string * list string -> bool) (path : string)
    (fs : list (string * list string)) :
  List.filter g (remove_file path fs)
  = List.filter (fun f => negb (String.eqb (fst f) path) && g f) fs.
Proof.
  unfold remove_file. induction fs as [|f fs IH]; simpl; [done|].
  destruct (String.eqb (fst f) path); simpl; [done|].
  destruct (g f); by rewrite IH.
Qed.

Lemma clean_listed (paths : list string) (w : world money) :
  for_each paths (fun path =>
    if ends_with ".jsonl" path && is_old C path then
      try_except
        (if remove_raises C path then raise ExnIO
         else modify (fun w => set_responses (remove_file path (responses w)) w))
        (fun _ => emit (EvLogError OldFile))
    else mret tt) w
  = (inr tt,
     set_trace (trace w ++ removal_warnings C paths)
       (set_responses
          (List.filter (fun f => negb (removed_by C paths (fst f))) (responses w)) w)).
Proof.
  revert w. induction paths as [|path rest IH]; intros w.
  - cbn [for_each]. unfold mret, M_ret, removal_warnings. cbn [omap list_omap].
    rewrite (List.filter_ext _ (fun _ => true)).
    + replace (List.filter (fun _ => true) (responses w)) with (responses w).
      * destruct w. cbn. by rewrite app_nil_r.
      * induction (responses w) as [|f fs IHfs]; simpl; [done|]. by rewrite <- IHfs.
    + intros f. unfold removed_by. cbn [existsb].
      by destruct (expired C f.1), (remove_raises C f.1).
  - cbn [for_each]. rewrite run_bind.
    unfold removal_warnings, removed_by, expired in *. cbn [omap list_omap existsb].
    assert (forall g1 g2 : string * list string -> bool,
              (forall f, fst f = path -> g1 f = g2 f) ->
              (forall f, fst f <> path -> g1 f = g2 f) ->
              forall fs, List.filter g1 fs = List.filter g2 fs) as Hext.
    { intros g1 g2 Heq Hne fs. apply List.filter_ext. intros f.
      destruct (String.eqb_spec (fst f) path); auto. }
    destruct (ends_with ".jsonl" path && is_old C path) eqn:Hexp; cbn [andb].
    + rewrite run_try_except. destruct (remove_raises C path) eqn:Hrm; cbn [andb negb].
      * unfold raise, emit, modify. rewrite IH. destruct w.
        unfold set_trace, set_responses. cbn. rewrite <- app_assoc. to_filters.
        apply Hext; intros f Hf.
        -- rewrite Hf, Hexp, Hrm. by cbn.
        -- apply String.eqb_neq in Hf. by rewrite Hf.
      * unfold modify. rewrite IH. destruct w.
        unfold set_trace, set_responses. cbn -[remove_file]. to_filters.
        rewrite filter_remove_file. apply Hext; intros f Hf.
        -- rewrite Hf, Hexp, Hrm, String.eqb_refl. by cbn.
        -- apply String.eqb_neq in Hf. by rewrite Hf.
    + unfold mret, M_ret. rewrite IH. to_filters.
      apply Hext; intros f Hf.
      * by rewrite Hf, Hexp.
      * apply String.eqb_neq in Hf. by rewrite Hf.
Qed.

Lemma clean_old_batch_files_run (w : world money) :
  clean_old_batch_files C w
  = (inr tt,
     set_trace (trace w ++ removal_warnings C (fst <$> responses w))
       (set_responses
          (List.filter
             (fun f => negb (expired C (fst f) && negb (remove_raises C (fst f))))
             (responses w)) w)).
Proof.
  unfold clean_old_batch_files. rewrite run_bind. cbn [gets].
  rewrite clean_listed. to_filters.
  apply List.filter_ext_in. intros f Hin. unfold removed_by.
  replace (existsb (String.eqb (fst f)) (fst <$> responses w)) with true;
    [by rewrite andb_true_r|].
  symmetry. apply existsb_exists. exists (fst f). split.
  - apply in_map_iff. by exists f.
  - apply String.eqb_refl.
Qed.


End Cleaning.

(** * Further properties of result ingestion *)

(** Two spellings of one world. *)
Ltac same_world :=
  match goal with w : world _ |- _ => destruct w end;
  unfold emit, modify, raise, set_trace, set_high_ids; cbn;
  rewrite ?app_nil_r, <- ?app_assoc; reflexivity.

(** Computes through one decoding step, keeping the decoders folded. *)
Ltac decoded :=
  repeat (rewrite ?run_bind;
          progress cbn -[message_content weighted_score loads_value get_key hashable]).

Section IngestionMore.
Context {money : Type} (C : collab money).

Lemma after_filter_lines_nil (w : world money) : after_filter_lines C [] w = w.
Proof. destruct w. unfold after_filter_lines. cbn. by rewrite !app_nil_r. Qed.

Lemma after_filter_lines_app lines1 lines2 (w : world money) :
  after_filter_lines C lines2 (after_filter_lines C lines1 w)
  = after_filter_lines C (lines1 ++ lines2) w.
Proof.
  destruct w. unfold after_filter_lines. cbn.
  by rewrite fmap_app, concat_app, omap_app, !app_assoc.
Qed.

(** One line of a filter result file: never an exception, and the effect
    is that of the decoded line. *)
Lemma filter_result_line_run line (w : world money) :
  filter_result_line C line w = (inr tt, after_filter_lines C [line] w).
Proof.
  unfold after_filter_lines. cbn [fmap list_fmap concat omap list_omap].
  unfold filter_result_line, filter_line_events, selected_by_line, decode_filter_line.
  rewrite run_try_except, run_bind.
  destruct (json_loads C line) as [result|]; decoded; [|same_world].
  destruct (get_key "custom_id" result) as [post_id|]; decoded; [|same_world].
  destruct (message_content result) as [content|]; decoded; [|same_world].
  destruct (loads_value C content) as [scores|]; decoded; [|same_world].
  destruct (weighted_score C scores) as [score|]; decoded; [|same_world].
  destruct (py_ge_threshold C score) as [[|]|]; decoded; [|same_world..].
  unfold high_ids_add, db_call.
  destruct (hashable post_id); decoded; [|same_world].
  destruct (db_raises C UpdateFilterScores post_id); decoded; same_world.
Qed.

Lemma filter_result_lines_run lines (w : world money) :
  for_each lines (filter_result_line C) w = (inr tt, after_filter_lines C lines w).
Proof.
  revert w. induction lines as [|line lines IH]; intros w.
  - simpl. by rewrite after_filter_lines_nil.
  - cbn [for_each]. rewrite run_bind, filter_result_line_run, IH.
    by rewrite (after_filter_lines_app [line] lines).
Qed.



(** X8. On the filter path a line that fails at any decoding step
    (envelope, fields, content, scores, arithmetic, threshold test) costs
    one error log and nothing else: the file is handled as the lines
    before it, the log, and the lines after it. *)
Theorem filter_bad_line_tolerated lines1 bad lines2 (w : world money) :
  decode_filter_line C bad = None ->
  for_each (lines1 ++ bad :: lines2) (filter_result_line C) w
  = (for_each lines1 (filter_result_line C) ;;
     emit (EvLogError FilterLine) ;;
     for_each lines2 (filter_result_line C)) w.
Proof.
  intros Hbad. rewrite filter_result_lines_run.
  rewrite run_bind, filter_result_lines_run, run_bind.
  unfold emit at 1, modify at 1. rewrite filter_result_lines_run.
  change (bad :: lines2) with ([bad] ++ lines2).
  rewrite <- !after_filter_lines_app.
  generalize (after_filter_lines C lines1 w). intros w1. do 2 f_equal.
  unfold after_filter_lines, filter_line_events, selected_by_line.
  cbn [fmap list_fmap concat omap list_omap]. rewrite Hbad. same_world.
Qed.








End IngestionMore.

(** * What the parts of the driver leave alone *)

Section Frames.
Context {money : Type}.

Section Part.
Context {X : Type} (f : world money -> X).

Lemma preserves_ret {A} (a : A) : preserves f (mret a).
Proof. by intros w. Qed.

Lemma preserves_raise {A} (e : exn) : preserves f (raise (A:=A) e).
Proof. by intros w. Qed.

Lemma preserves_lift {A} (o : option A) : preserves f (lift o).
Proof. destruct o; [apply preserves_ret|apply preserves_raise]. Qed.

Lemma preserves_gets {A} (g : world money -> A) : preserves f (gets g).
Proof. by intros w. Qed.

Lemma preserves_modify (g : world money -> world money) :
  (forall w, f (g w) = f w) -> preserves f (modify g).
Proof. intros Hg w. apply Hg. Qed.

Lemma preserves_bind {A B} (c : M money A) (k : A -> M money B) :
  preserves f c -> (forall a, preserves f (k a)) -> preserves f (c ≫= k).
Proof.
  intros Hc Hk w. rewrite run_bind. specialize (Hc w).
  destruct (c w) as [[e|a] w']; simpl in *; [done|]. by rewrite Hk.
Qed.

Lemma preserves_try_except {A} (c : M money A) (h : exn -> M money A) :
  preserves f c -> (forall e, preserves f (h e)) -> preserves f (try_except c h).
Proof.
  intros Hc Hh w. rewrite run_try_except. specialize (Hc w).
  destruct (c w) as [[e|a] w']; simpl in *; [|done]. by rewrite Hh.
Qed.

Lemma preserves_for_each {A} (l : list A) (body : A -> M money unit) :
  (forall x, preserves f (body x)) -> preserves f (for_each l body).
Proof.
  intros Hbody. induction l as [|x l IH]; simpl.
  - apply preserves_ret.
  - apply preserves_bind; [apply Hbody|by intros _].
Qed.

End Part.

End Frames.

(** Splits a goal about what a composed computation leaves alone. *)
Ltac frames :=
  repeat first
    [ solve [auto 2]
    | apply preserves_ret
    | apply preserves_raise
    | apply preserves_lift
    | apply preserves_gets
    | apply preserves_modify; intros; first [reflexivity | solve [auto 2]]
    | apply preserves_bind; [|intros]
    | apply preserves_try_except; [|intros]
    | apply preserves_for_each; intros
    | match goal with
      | |- preserves _ (if ?b then _ else _) => destruct b
      | |- preserves _ (match ?x with _ => _ end) => destruct x
      end ].

Section Footprint.
Context {money : Type} (C : collab money).

Section Part.
Context {X : Type} (f : world money -> X).
Hypothesis f_trace : forall t w, f (set_trace t w) = f w.
Hypothesis f_submissions : forall n w, f (set_submissions n w) = f w.

Lemma retry_loop_preserves label batch_items model attempts delay :
  preserves f (retry_loop C label batch_items model attempts delay).
Proof.
  revert delay. induction attempts as [|attempt rest IH]; intros delay; simpl.
  - apply preserves_ret.
  - apply preserves_bind.
    + unfold attempt_once, submit_and_poll, sleep, emit. frames.
    + intros [batch_id|delay']; [apply preserves_ret|apply IH].
Qed.

Lemma submit_with_backoff_preserves batch_items model label :
  (forall d w, f (set_deferred d w) = f w) ->
  preserves f (submit_with_backoff C batch_items model label).
Proof.
  intros f_deferred. unfold submit_with_backoff, save_failed_batch, emit.
  pose proof retry_loop_preserves. frames.
Qed.

End Part.

(** X12. submit_with_backoff writes nothing but the trace, the attempt
    counter and the deferred file of its label: the cost ledger, the result
    files and every other deferred file are after the call what they were
    before it. *)
Theorem backoff_footprint batch_items model label (w : world money) :
  let r := submit_with_backoff C batch_items model label w in
  ledger r.2 = ledger w
  /\ responses r.2 = responses w
  /\ forall path, path <> deferred_path "data/deferred" label ->
                  deferred r.2 !! path = deferred w !! path.
Proof.
  cbn zeta. split; [|split].
  - by apply (submit_with_backoff_preserves ledger).
  - by apply (submit_with_backoff_preserves responses).
  - intros path Hne.
    pose proof (retry_loop_preserves (fun w => deferred w !! path)) as Hloop.
    unfold submit_with_backoff. rewrite run_bind.
    specialize (Hloop ltac:(done) ltac:(done) label batch_items model
                  (seq 1 max_retries) initial_delay w).
    destruct (retry_loop C label batch_items model (seq 1 max_retries) initial_delay w)
      as [[e|[batch_id|]] w']; simpl in *; [done..|].
    rewrite run_bind. unfold save_failed_batch.
    destruct (write_raises C _); [done|].
    rewrite !run_bind. cbn. by rewrite lookup_insert_ne.
Qed.

End Footprint.

(** * File names of the result files *)






(** * Further properties of the pipeline driver *)

Section DriverMore.
Context {money : Type} (C : collab money).

Lemma sub_batches_started_app (t1 t2 : list (event money)) :
  sub_batches_started (t1 ++ t2) = sub_batches_started t1 ++ sub_batches_started t2.
Proof. apply omap_app. Qed.

Lemma sub_batches_started_later (evs : list (event money)) :
  Forall later_event evs -> sub_batches_started evs = [].
Proof.
  induction 1 as [|ev evs Hev _ IH]; [done|].
  destruct ev as [| |l a b m| | | | |]; simpl; try exact IH.
  destruct a as [|[|a]]; simpl; try exact IH. by destruct Hev.
Qed.

Lemma retry_loop_later label batch_items model attempts delay :
  Forall (fun a => a <> 1%nat) attempts ->
  emits_only later_event (retry_loop C label batch_items model attempts delay).
Proof.
  intros Hatt. revert delay.
  induction Hatt as [|attempt rest Hne _ IH]; intros delay; simpl.
  - apply emits_only_ret.
  - apply emits_only_bind.
    + eapply emits_only_weaken; [|apply attempt_once_emits].
      * constructor; [|constructor]. unfold later_event.
        destruct attempt as [|[|a]]; simpl; [tauto|congruence|tauto].
      * intros d. unfold later_event. simpl. tauto.
    + intros [batch_id|delay']; [apply emits_only_ret|apply IH].
Qed.

Lemma submit_with_backoff_first_attempt batch_items model label :
  starts_with [EvSubmit label 1 batch_items model] later_event
    (submit_with_backoff C batch_items model label).
Proof.
  unfold submit_with_backoff. apply starts_with_bind.
  - change (seq 1 max_retries) with (1%nat :: seq 2 19).
    cbn [retry_loop]. apply starts_with_bind.
    + apply attempt_once_emits. intros d. unfold later_event. simpl. tauto.
    + intros [batch_id|delay']; [apply emits_only_ret|].
      apply retry_loop_later. apply Forall_forall. intros a Ha.
      apply list_elem_of_In, in_seq in Ha. lia.
  - intros [batch_id|]; [apply emits_only_ret|].
    apply emits_only_bind; [|intros; apply emits_only_ret].
    apply save_failed_batch_emits. intros p i. unfold later_event. simpl. tauto.
Qed.

Lemma submit_with_backoff_ledger batch_items model label :
  preserves ledger (submit_with_backoff C batch_items model label).
Proof. by apply submit_with_backoff_preserves. Qed.

Lemma filter_sub_batch_ledger batch (w : world money) :
  ledger (filter_sub_batch C batch w).2 = ledger w ++ [(batch, model_filter C)].
Proof.
  unfold filter_sub_batch. rewrite run_bind.
  unfold add_estimated_batch_cost. rewrite !run_bind. cbn [emit modify].
  match goal with
  | |- ledger (?c ?w1).2 = _ =>
      assert (preserves ledger c) as Hrest; [|rewrite (Hrest w1); by destruct w]
  end.
  unfold uuid4, download_batch_results, emit.
  pose proof submit_with_backoff_ledger. frames.
Qed.

Lemma filter_sub_batch_first_attempt batch :
  starts_with [EvAddCost batch (model_filter C);
               EvSubmit "filter" 1 batch (model_filter C)] later_event
    (filter_sub_batch C batch).
Proof.
  unfold filter_sub_batch.
  apply (starts_with_after _ [_] [_]); [apply add_estimated_batch_cost_exactly|].
  intros _. apply starts_with_bind; [apply submit_with_backoff_first_attempt|].
  intros batch_id. destruct (no_batch_id batch_id); [apply emits_only_ret|].
  apply emits_only_bind; [apply uuid4_emits|intros hex].
  apply download_batch_results_emits. intros b p. unfold later_event. simpl. tauto.
Qed.

Section NoFault.
Hypothesis writes_ok : forall path, write_raises C path = false.
Hypothesis downloads_ok : forall batch_id, is_Some (results_of C batch_id).

(** X13. When neither a deferred write nor a download raises, the loop
    of the filter stage charges and submits every sub-batch, in order,
    whatever becomes of the earlier ones: a deferred sub-batch is charged
    like a completed one and does not keep the next from being
    submitted. *)
Theorem every_sub_batch_charged_and_submitted batches (w : world money) :
  let r := for_each batches (filter_sub_batch C) w in
  r.1 = inr tt
  /\ sub_batches_started (trace r.2) = sub_batches_started (trace w) ++ batches
  /\ ledger r.2 = ledger w ++ ((fun b => (b, model_filter C)) <$> batches).
Proof.
  cbn zeta. revert w. induction batches as [|batch rest IH]; intros w.
  - simpl. by rewrite !app_nil_r.
  - cbn [for_each]. rewrite run_bind.
    destruct (filter_sub_batch_safe C writes_ok downloads_ok batch w) as ([] & Hok).
    pose proof (filter_sub_batch_ledger batch w) as Hledger.
    destruct (filter_sub_batch_first_attempt batch w) as (evs & Htrace & Hevs).
    destruct (filter_sub_batch C batch w) as [[e|[]] w']; cbn [fst snd] in *; [done|].
    destruct (IH w') as (Hr & Hstarted & Hl).
    rewrite Hr, Hstarted, Hl, Htrace, Hledger.
    rewrite (sub_batches_started_app (trace w)), (sub_batches_started_app [_; _]).
    rewrite (sub_batches_started_later evs Hevs).
    cbn. by rewrite <- !app_assoc.
Qed.

End NoFault.

(** X14. Without a valid post the run ends after the clean-up of old
    result files: no budget check, no charge, no submission. *)
Theorem run_stops_without_valid_posts (w : world money) :
  List.filter (is_valid_post C) (scrape_all_configured_subreddits C) = [] ->
  run_daily_pipeline C w = clean_old_batch_files C w.
Proof.
  intros Hnone. unfold run_daily_pipeline. rewrite run_bind.
  destruct (clean_old_batch_files_safe C w) as ([] & Hclean).
  destruct (clean_old_batch_files C w) as [[e|[]] w']; cbn [fst snd] in *; [done|].
  destruct (scrape_all_configured_subreddits C); [done|]. by rewrite Hnone.
Qed.

Lemma filter_stage_refused posts (w : world money) :
  can_process_batch C (ledger w) (estimate_filter_cost C posts) = false ->
  filter_stage C posts w
  = (inr tt, set_trace (trace w ++ [EvCanProcess (estimate_filter_cost C posts)]) w).
Proof.
  intros Hno. unfold filter_stage, check_budget. rewrite !run_bind. cbn.
  by rewrite Hno.
Qed.

(** X15. When there are valid posts and can_process_batch turns the
    filter stage down, the run is the clean-up followed by that one budget
    check: nothing is charged, submitted, deferred or downloaded. *)
Theorem run_stops_when_budget_refused (w : world money) :
  let valid := List.filter (is_valid_post C) (scrape_all_configured_subreddits C) in
  valid <> [] ->
  can_process_batch C (ledger w) (estimate_filter_cost C valid) = false ->
  run_daily_pipeline C w
  = (clean_old_batch_files C ;; emit (EvCanProcess (estimate_filter_cost C valid))) w.
Proof.
  cbn zeta. intros Hvalid Hno. unfold run_daily_pipeline. rewrite !run_bind.
  rewrite clean_old_batch_files_run.
  destruct (scrape_all_configured_subreddits C) as [|p posts]; [done|].
  destruct (List.filter (is_valid_post C) (p :: posts)) as [|v valid]; [done|].
  rewrite filter_stage_refused; [done|]. by destruct w.
Qed.

(** X16. If sanitize_text maps the empty string to itself, a post that
    passes is_valid_post has both a title and a body, neither of them
    empty. *)
Theorem valid_post_has_title_and_body (p : post) :
  sanitize_text C "" = "" ->
  is_valid_post C p = true ->
  exists t b, title p = Some t /\ post_body p = Some b /\ t <> "" /\ b <> "".
Proof.
  intros Hempty. unfold is_valid_post.
  destruct (title p) as [t|], (post_body p) as [b|]; simpl;
    rewrite ?Hempty; intros Hvalid;
    apply andb_prop in Hvalid as [Ht Hb];
    try (rewrite String.eqb_refl in Ht; discriminate);
    try (rewrite String.eqb_refl in Hb; discriminate).
  exists t, b. repeat split; intros ->;
    rewrite Hempty, String.eqb_refl in *; discriminate.
Qed.

End DriverMore.

(** * Sub-batches whose first attempt completes *)

Section FirstAttempt.
Context {money : Type} (C : collab money).

Lemma submit_with_backoff_first_completed batch_items model label batch_id
    (w : world money) :
  service C (submissions w) = Polled batch_id "completed" ->
  submit_with_backoff C batch_items model label w
  = (inr (Some batch_id), advanced w 1 [EvSubmit label 1 batch_items model]).
Proof.
  intros Hdone. unfold submit_with_backoff. rewrite run_bind.
  change (seq 1 max_retries) with (1%nat :: seq 2 19). cbn [retry_loop].
  by rewrite run_bind, (attempt_once_completed _ _ _ _ _ _ _ batch_id).
Qed.

Lemma filter_sub_batch_first_completed batch batch_id (w : world money) :
  service C (submissions w) = Polled batch_id "completed" ->
  filter_sub_batch C batch w
  = (let w1 := advanced (set_ledger (ledger w ++ [(batch, model_filter C)]) w) 1
                 [EvAddCost batch (model_filter C);
                  EvSubmit "filter" 1 batch (model_filter C)] in
     if String.eqb batch_id "" then (inr tt, w1)
     else download_batch_results C batch_id
            ("data/batch_responses/filter_result_" +:+ uuid4_hex C (uuids w) +:+ ".jsonl")
            (set_uuids (S (uuids w)) w1)).
Proof.
  intros Hdone. unfold filter_sub_batch. rewrite run_bind.
  unfold add_estimated_batch_cost. rewrite !run_bind. cbn [emit modify].
  rewrite run_bind, (submit_with_backoff_first_completed _ _ _ batch_id) by done.
  cbn [no_batch_id default]. cbn zeta.
  assert (advanced
            (set_ledger
               (ledger (set_trace (trace w ++ [EvAddCost batch (model_filter C)]) w)
                  ++ [(batch, model_filter C)])
               (set_trace (trace w ++ [EvAddCost batch (model_filter C)]) w))
            1 [EvSubmit "filter" 1 batch (model_filter C)]
          = advanced (set_ledger (ledger w ++ [(batch, model_filter C)]) w) 1
              [EvAddCost batch (model_filter C);
               EvSubmit "filter" 1 batch (model_filter C)]) as ->.
  { destruct w. unfold advanced. cbn. by rewrite <- app_assoc. }
  destruct (String.eqb batch_id ""); [done|].
  unfold uuid4. rewrite !run_bind. cbn [gets modify mret M_ret].
  by destruct w.
Qed.

(** X18. When the first attempt of a sub-batch completes and the
    download of its results raises, the exception leaves the loop of the
    filter stage at once: the sub-batch has been charged and submitted, no
    result file is written and the sub-batches after it are not
    submitted. *)
Theorem download_failure_ends_stage batch rest batch_id (w : world money) :
  service C (submissions w) = Polled batch_id "completed" ->
  batch_id <> "" ->
  results_of C batch_id = None ->
  let r := for_each (batch :: rest) (filter_sub_batch C) w in
  r.1 = inl ExnService
  /\ trace r.2
     = trace w ++ [EvAddCost batch (model_filter C);
                   EvSubmit "filter" 1 batch (model_filter C);
                   EvDownload batch_id
                     ("data/batch_responses/filter_result_"
                      +:+ uuid4_hex C (uuids w) +:+ ".jsonl")]
  /\ responses r.2 = responses w.
Proof.
  intros Hdone Hid Hdl. cbn zeta. cbn [for_each].
  rewrite run_bind, (filter_sub_batch_first_completed _ batch_id) by done.
  cbn zeta. apply String.eqb_neq in Hid. rewrite Hid.
  unfold download_batch_results. rewrite run_bind, Hdl.
  destruct w. cbn. by rewrite <- app_assoc.
Qed.

(** X19. A completed job whose identifier is the empty string counts as
    no identifier in the test of line 188: the sub-batch is charged and
    submitted once, and then neither downloaded nor deferred. *)
Theorem empty_job_id_is_skipped batch (w : world money) :
  service C (submissions w) = Polled "" "completed" ->
  let r := filter_sub_batch C batch w in
  r.1 = inr tt
  /\ trace r.2 = trace w ++ [EvAddCost batch (model_filter C);
                             EvSubmit "filter" 1 batch (model_filter C)]
  /\ responses r.2 = responses w
  /\ deferred r.2 = deferred w.
Proof.
  intros Hdone. cbn zeta.
  rewrite (filter_sub_batch_first_completed _ "") by done.
  destruct w. by cbn.
Qed.

End FirstAttempt.

(** * The further properties on concrete runs *)

Lemma filter_bad_line_tolerated_witness :
  let C := scenario all_completed never_raises no_results 100 in
  let good := result_line "p1" (scores_text "9" "8" "7") in
  for_each ([good] ++ "oops" :: [good]) (filter_result_line C) start
  = (for_each [good] (filter_result_line C) ;;
     emit (EvLogError FilterLine) ;;
     for_each [good] (filter_result_line C)) start.
Proof.
  apply (filter_bad_line_tolerated (scenario all_completed never_raises no_results 100)).
  reflexivity.
Defined.



Lemma every_sub_batch_charged_and_submitted_witness :
  let C := scenario always_failed never_raises no_results 100 in
  let batches := [[mk_item "a" 1]; [mk_item "b" 2]] in
  let r := for_each batches (filter_sub_batch C) start in
  r.1 = inr tt
  /\ sub_batches_started (trace r.2) = sub_batches_started (trace start) ++ batches
  /\ ledger r.2 = ledger start ++ ((fun b => (b, model_filter C)) <$> batches).
Proof.
  apply (every_sub_batch_charged_and_submitted
           (scenario always_failed never_raises no_results 100)).
  - intros path. reflexivity.
  - intros batch_id. by eexists.
Defined.

Lemma run_stops_without_valid_posts_witness :
  let C := with_posts untitled_posts (scenario all_completed never_raises no_results 100) in
  run_daily_pipeline C start = clean_old_batch_files C start.
Proof.
  apply (run_stops_without_valid_posts
           (with_posts untitled_posts
              (scenario all_completed never_raises no_results 100))).
  reflexivity.
Defined.

Lemma run_stops_when_budget_refused_witness :
  let C := with_budget no_budget (scenario all_completed never_raises no_results 100) in
  run_daily_pipeline C start
  = (clean_old_batch_files C ;;
     emit (EvCanProcess
             (estimate_filter_cost C
                (List.filter (is_valid_post C) (scrape_all_configured_subreddits C)))))
      start.
Proof.
  apply (run_stops_when_budget_refused
           (with_budget no_budget (scenario all_completed never_raises no_results 100))).
  - discriminate.
  - reflexivity.
Defined.

Lemma valid_post_has_title_and_body_witness :
  exists t b,
    title (Post "p1" (Some "first") (Some "text")) = Some t
    /\ post_body (Post "p1" (Some "first") (Some "text")) = Some b
    /\ t <> "" /\ b <> "".
Proof.
  apply (valid_post_has_title_and_body
           (scenario all_completed never_raises no_results 100)
           (Post "p1" (Some "first") (Some "text"))).
  - reflexivity.
  - reflexivity.
Defined.

Lemma download_failure_ends_stage_witness :
  let C := scenario all_completed never_raises (fun _ => None) 100 in
  let r := for_each ([mk_item "a" 1] :: [[mk_item "b" 2]]) (filter_sub_batch C) start in
  r.1 = inl ExnService
  /\ trace r.2
     = trace start ++ [EvAddCost [mk_item "a" 1] (model_filter C);
                       EvSubmit "filter" 1 [mk_item "a" 1] (model_filter C);
                       EvDownload "batch_1"
                         ("data/batch_responses/filter_result_"
                          +:+ uuid4_hex C (uuids start) +:+ ".jsonl")]
  /\ responses r.2 = responses start.
Proof.
  apply (download_failure_ends_stage
           (scenario all_completed never_raises (fun _ => None) 100)).
  - reflexivity.
  - discriminate.
  - reflexivity.
Defined.

Lemma empty_job_id_is_skipped_witness :
  let C := scenario unnamed_job never_raises no_results 100 in
  let r := filter_sub_batch C [mk_item "a" 1] start in
  r.1 = inr tt
  /\ trace r.2 = trace start ++ [EvAddCost [mk_item "a" 1] (model_filter C);
                                 EvSubmit "filter" 1 [mk_item "a" 1] (model_filter C)]
  /\ responses r.2 = responses start
  /\ deferred r.2 = deferred start.
Proof.
  apply (empty_job_id_is_skipped (scenario unnamed_job never_raises no_results 100)).
  reflexivity.
Defined.
